(** * A shallow embedding of the chat gateway and its REST tool server

    The development follows the repository file by file:

    - [Py]        the few built-in Python operations the code relies on
                  ([str] methods and [int()]);
    - [Json]      JSON values, their truthiness, and [json.loads];
    - [Chainlint] [chainlint.py]: [extract_json_from_text], the reply parsing
                  of [LLMClient.generate_response], the message handler
                  [main] and [MCPClient.call_tool];
    - [Utils]     [lib/utils.py]: [validate_url], [fetch_single_rss_feed];
    - [Services]  [lib/services.py]: [RSSService.fetch_feeds_concurrent],
                  both as the value it returns and as a scheduler of tasks
                  behind an [asyncio.Semaphore];
    - [Server]    [main_mcp.py] and [lib/models.py]: the event and
                  configuration endpoints.

    A Python [str] is represented by its UTF-8 encoding, a Rocq [string]
    (one [ascii] per byte).  Every character the code inspects is ASCII, and
    the byte order of UTF-8 is the code point order, so searching, prefix
    tests, splitting and comparisons agree with Python's on code points. *)

From Stdlib Require Import ZArith Lia Ascii String List Sorting.Sorted Permutation.
From stdpp Require Import base option list gmap strings pretty.

Local Open Scope string_scope.
Local Open Scope Z_scope.
Local Open Scope list_scope.
Set Warnings "-register-all".
Set Warnings "-notation-for-abbreviation".

(* ===================================================================== *)
(** ** Python built-ins                                                    *)
(* ===================================================================== *)

Module Py.

Definition ascii_code (c : ascii) : Z := Z.of_N (N_of_ascii c).

Definition char_of_code (n : Z) : ascii := ascii_of_N (Z.to_N n).

Definition is_digit (c : ascii) : bool :=
  (48 <=? ascii_code c) && (ascii_code c <=? 57).

Definition digit_val (c : ascii) : Z := ascii_code c - 48.

Definition is_alpha (c : ascii) : bool :=
  let n := ascii_code c in
  ((65 <=? n) && (n <=? 90)) || ((97 <=? n) && (n <=? 122)).

(** [str.lower] on the ASCII letters (bytes above 127 are left alone). *)
Definition lower_char (c : ascii) : ascii :=
  let n := ascii_code c in
  if (65 <=? n) && (n <=? 90) then char_of_code (n + 32) else c.

Fixpoint lower (s : string) : string :=
  match s with
  | EmptyString => EmptyString
  | String c r => String (lower_char c) (lower r)
  end.

(** [s.startswith(p)] *)
Fixpoint startswith (p s : string) : bool :=
  match p, s with
  | EmptyString, _ => true
  | String a p', String b s' => if Ascii.eqb a b then startswith p' s' else false
  | String _ _, EmptyString => false
  end.

(** [c in s] for a one-character [c]. *)
Fixpoint contains_char (c : ascii) (s : string) : bool :=
  match s with
  | EmptyString => false
  | String a r => if Ascii.eqb a c then true else contains_char c r
  end.

(** [s.split(sep)] for a one-character separator: always at least one
    piece, empty pieces kept. *)
Fixpoint split (sep : ascii) (s : string) : list string :=
  match s with
  | EmptyString => [EmptyString]
  | String c r =>
      if Ascii.eqb c sep then EmptyString :: split sep r
      else match split sep r with
           | [] => [String c EmptyString]
           | p :: ps => String c p :: ps
           end
  end.

(** [s.partition(sep)]: the text before the first [sep] and, when there is
    one, the text after it. *)
Fixpoint partition (sep : ascii) (s : string) : string * option string :=
  match s with
  | EmptyString => (EmptyString, None)
  | String c r =>
      if Ascii.eqb c sep then (EmptyString, Some r)
      else let '(a, b) := partition sep r in (String c a, b)
  end.

(** [s.rpartition(sep)]: the text after the last [sep], and the text before
    it when there is one. *)
Fixpoint rpartition (sep : ascii) (s : string) : option string * string :=
  match s with
  | EmptyString => (None, EmptyString)
  | String c r =>
      match rpartition sep r with
      | (Some a, b) => (Some (String c a), b)
      | (None, b) =>
          if Ascii.eqb c sep then (Some EmptyString, b) else (None, String c b)
      end
  end.

(** The characters [str.strip] removes, among the ASCII ones: tab, line
    feed, vertical tab, form feed, carriage return, the four separators
    0x1c-0x1f and the space. *)
Definition is_space (c : ascii) : bool :=
  let n := ascii_code c in
  ((9 <=? n) && (n <=? 13)) || ((28 <=? n) && (n <=? 32)).

Fixpoint lstrip (s : string) : string :=
  match s with
  | String c r => if is_space c then lstrip r else s
  | EmptyString => EmptyString
  end.

Fixpoint rstrip (s : string) : string :=
  match s with
  | EmptyString => EmptyString
  | String c r =>
      match rstrip r with
      | EmptyString => if is_space c then EmptyString else String c EmptyString
      | r' => String c r'
      end
  end.

(** [s.strip()] for a text of ASCII characters. *)
Definition strip (s : string) : string := rstrip (lstrip s).

(** Is every character of the text an ASCII one? *)
Fixpoint is_ascii (s : string) : bool :=
  match s with
  | EmptyString => true
  | String c r => (ascii_code c <? 128) && is_ascii r
  end.

(** The white space [int()] and [float()] skip around the literal of an
    ASCII text: tab, line feed, vertical tab, form feed, carriage return
    and the space.  The separators 0x1c-0x1f, which [str.strip] removes,
    are not among them. *)
Definition is_c_space (c : ascii) : bool :=
  let n := ascii_code c in
  ((9 <=? n) && (n <=? 13)) || (n =? 32).

Fixpoint c_lstrip (s : string) : string :=
  match s with
  | String c r => if is_c_space c then c_lstrip r else s
  | EmptyString => EmptyString
  end.

Fixpoint c_rstrip (s : string) : string :=
  match s with
  | EmptyString => EmptyString
  | String c r =>
      match c_rstrip r with
      | EmptyString => if is_c_space c then EmptyString else String c EmptyString
      | r' => String c r'
      end
  end.

Definition c_strip (s : string) : string := c_rstrip (c_lstrip s).

(** The number of digits of a text. *)
Fixpoint count_digits (s : string) : Z :=
  match s with
  | EmptyString => 0
  | String c r => (if is_digit c then 1 else 0) + count_digits r
  end.

(** [sys.int_max_str_digits]: a decimal literal with more digits is refused
    by [int()], and an [int] with more digits is refused by [str()]. *)
Definition int_max_str_digits : Z := 4300.

(** Digits of a decimal literal with single underscores allowed between
    digits, as [int()] reads them.  [acc] is the value read so far and
    [prev_digit] tells whether the previous character was a digit. *)
Fixpoint int_digits (s : string) (acc : Z) (prev_digit : bool) : option Z :=
  match s with
  | EmptyString => if prev_digit then Some acc else None
  | String c r =>
      if is_digit c then int_digits r (10 * acc + digit_val c) true
      else if Ascii.eqb c "_" then
             (if prev_digit then int_digits r acc false else None)
      else None
  end.

(** [int(s)] for a [str] argument of ASCII characters, base ten; [None]
    stands for [ValueError].  (In a text with other characters [int()] also
    reads the decimal digits of other scripts and skips other white
    space.) *)
Definition int_of_str (s : string) : option Z :=
  let literal := c_strip s in
  if int_max_str_digits <? count_digits literal then None
  else
    match literal with
    | String "-" r => option_map Z.opp (int_digits r 0 false)
    | String "+" r => int_digits r 0 false
    | r => int_digits r 0 false
    end.

End Py.

(* ===================================================================== *)
(** ** JSON values and [json.loads]                                        *)
(* ===================================================================== *)

Module Json.

(** The Python values [json.loads] builds: [None], [bool], [int], [float],
    [str], [list] and [dict].  A finite float read from a literal is kept
    exactly, as [(-1)^neg * m * 10^e]; [JNaN] and [JInf] are the values of
    the literals [NaN], [Infinity] and [-Infinity], which the decoder
    accepts.  A [dict] is an association list in insertion order without
    repeated keys (see [dict_set]). *)
Inductive json : Type :=
| JNull
| JBool (b : bool)
| JInt (n : Z)
| JFloat (neg : bool) (m : Z) (e : Z)
| JNaN
| JInf (neg : bool)
| JString (s : string)
| JArray (items : list json)
| JObject (fields : list (string * json)).

(** [d[key] = v] on a dict: an existing key keeps its position. *)
Fixpoint dict_set (key : string) (v : json) (d : list (string * json))
  : list (string * json) :=
  match d with
  | [] => [(key, v)]
  | (k, w) :: d' =>
      if String.eqb k key then (k, v) :: d' else (k, w) :: dict_set key v d'
  end.

(** [d.get(key)] on a dict; [None] when the key is absent. *)
Fixpoint dict_get (key : string) (d : list (string * json)) : option json :=
  match d with
  | [] => None
  | (k, w) :: d' => if String.eqb k key then Some w else dict_get key d'
  end.

(** Does the literal [(-1)^neg * m * 10^e] round to zero as a double?  The
    nearest double to [x] is zero exactly when [|x| <= 2^-1075], half the
    least subnormal (ties go to the even neighbour, which is zero). *)
Definition float_is_zero (m e : Z) : bool :=
  if m =? 0 then true
  else if 0 <=? e then false
  else Z.abs m * 2 ^ 1075 <=? 10 ^ (- e).

(** Python truthiness, the test behind [if not x]. *)
Definition truthy (v : json) : bool :=
  match v with
  | JNull => false
  | JBool b => b
  | JInt n => negb (n =? 0)
  | JFloat _ m e => negb (float_is_zero m e)
  | JNaN | JInf _ => true
  | JString s => negb (String.eqb s EmptyString)
  | JArray l => match l with [] => false | _ => true end
  | JObject d => match d with [] => false | _ => true end
  end.

(** [v == s] for a [str] [s]: only an equal [str] compares equal. *)
Definition eq_str (v : json) (s : string) : bool :=
  match v with
  | JString t => String.eqb t s
  | _ => false
  end.

Definition is_dict (v : json) : bool :=
  match v with JObject _ => true | _ => false end.

(** Texts with double quotes are written with single quotes in this file
    and converted by [dq]: [dq "{'a': 1}"] is the text [{"a": 1}]. *)
Fixpoint dq (s : string) : string :=
  match s with
  | EmptyString => EmptyString
  | String c r => String (if Ascii.eqb c "'" then "034"%char else c) (dq r)
  end.

(** *** The decoder *)

(** Outcome of scanning a prefix of the text: a value and the text left, a
    decoding error (Python raises [JSONDecodeError]), or the recursion
    budget used up (which, as [JsonProofs.decode_total] shows, does not
    happen at the budget [decode] gives). *)
Inductive scan (A : Type) : Type :=
| Parsed (a : A) (rest : string)
| Invalid
| NoFuel.
Arguments Parsed {A} a rest.
Arguments Invalid {A}.
Arguments NoFuel {A}.

Definition scan_map {A B} (f : A -> B) (r : scan A) : scan B :=
  match r with
  | Parsed a rest => Parsed (f a) rest
  | Invalid => Invalid
  | NoFuel => NoFuel
  end.

Definition dquote : ascii := "034"%char.
Definition backslash : ascii := "092"%char.

(** [WHITESPACE = re.compile(r'[ \t\n\r]*')] *)
Definition is_ws (c : ascii) : bool :=
  let n := Py.ascii_code c in
  (n =? 32) || (n =? 9) || (n =? 10) || (n =? 13).

Fixpoint skip_ws (s : string) : string :=
  match s with
  | String c r => if is_ws c then skip_ws r else s
  | EmptyString => EmptyString
  end.

Definition hex_val (c : ascii) : option Z :=
  let n := Py.ascii_code c in
  if (48 <=? n) && (n <=? 57) then Some (n - 48)
  else if (65 <=? n) && (n <=? 70) then Some (n - 55)
  else if (97 <=? n) && (n <=? 102) then Some (n - 87)
  else None.

(** [_decode_uXXXX]: exactly four hexadecimal digits. *)
Definition decode_uXXXX (s : string) : option (Z * string) :=
  match s with
  | String a (String b (String c (String d r))) =>
      match hex_val a, hex_val b, hex_val c, hex_val d with
      | Some x, Some y, Some z, Some w => Some (((x * 16 + y) * 16 + z) * 16 + w, r)
      | _, _, _, _ => None
      end
  | _ => None
  end.

(** [chr(n)] in the UTF-8 representation of [str]. *)
Definition utf8 (n : Z) : string :=
  let b (k : Z) := Py.char_of_code k in
  let cont (k : Z) := b (128 + Z.land k 63) in
  if n <? 128 then String (b n) EmptyString
  else if n <? 2048 then
    String (b (192 + Z.shiftr n 6)) (String (cont n) EmptyString)
  else if n <? 65536 then
    String (b (224 + Z.shiftr n 12))
      (String (cont (Z.shiftr n 6)) (String (cont n) EmptyString))
  else
    String (b (240 + Z.shiftr n 18))
      (String (cont (Z.shiftr n 12))
         (String (cont (Z.shiftr n 6)) (String (cont n) EmptyString))).

(** The [BACKSLASH] table of one-letter escapes. *)
Definition unescape (c : ascii) : option ascii :=
  let n := Py.ascii_code c in
  if n =? 34 then Some dquote
  else if n =? 92 then Some backslash
  else if n =? 47 then Some "/"%char
  else if n =? 98 then Some "008"%char
  else if n =? 102 then Some "012"%char
  else if n =? 110 then Some "010"%char
  else if n =? 114 then Some "013"%char
  else if n =? 116 then Some "009"%char
  else None.

(** [\uXXXX], with a following low surrogate escape folded into one code
    point when the first is a high surrogate. *)
Definition scan_unicode (s : string) : option (Z * string) :=
  match decode_uXXXX s with
  | None => None
  | Some (uni, r) =>
      if (55296 <=? uni) && (uni <=? 56319) then
        match r with
        | String c1 (String c2 r') =>
            if Ascii.eqb c1 backslash && Ascii.eqb c2 "u" then
              match decode_uXXXX r' with
              | None => None
              | Some (uni2, r2) =>
                  if (56320 <=? uni2) && (uni2 <=? 57343) then
                    Some (65536 + Z.lor (Z.shiftl (uni - 55296) 10) (uni2 - 56320), r2)
                  else Some (uni, r)
              end
            else Some (uni, r)
        | _ => Some (uni, r)
        end
      else Some (uni, r)
  end.

(** [scanstring] in strict mode, started just after the opening quote. *)
Fixpoint scanstring (fuel : nat) (s : string) : scan string :=
  match fuel with
  | O => NoFuel
  | S fuel =>
      match s with
      | EmptyString => Invalid
      | String c r =>
          if Ascii.eqb c dquote then Parsed EmptyString r
          else if Ascii.eqb c backslash then
            match r with
            | EmptyString => Invalid
            | String esc r1 =>
                if Ascii.eqb esc "u" then
                  match scan_unicode r1 with
                  | None => Invalid
                  | Some (uni, r2) =>
                      scan_map (String.append (utf8 uni)) (scanstring fuel r2)
                  end
                else
                  match unescape esc with
                  | None => Invalid
                  | Some ch => scan_map (String ch) (scanstring fuel r1)
                  end
            end
          else if Py.ascii_code c <? 32 then Invalid
          else scan_map (String c) (scanstring fuel r)
      end
  end.

(** A maximal run of ASCII digits: its value, its length, the text left. *)
Fixpoint take_digits (s : string) (acc : Z) (len : Z) : Z * Z * string :=
  match s with
  | String c r =>
      if Py.is_digit c then take_digits r (10 * acc + Py.digit_val c) (len + 1)
      else (acc, len, s)
  | EmptyString => (acc, len, s)
  end.

(** The integer part of [NUMBER_RE]: [0] or a digit run not starting
    with [0]. *)
Definition scan_intpart (s : string) : option (Z * string) :=
  match s with
  | String c r =>
      if Ascii.eqb c "0" then Some (0, r)
      else if Py.is_digit c then
        let '(v, _, r') := take_digits s 0 0 in Some (v, r')
      else None
  | EmptyString => None
  end.

(** The optional fraction [\.[0-9]+]: digits value and count. *)
Definition scan_frac (s : string) : option (Z * Z * string) :=
  match s with
  | String "." r =>
      let '(v, len, r') := take_digits r 0 0 in
      if 0 <? len then Some (v, len, r') else None
  | _ => None
  end.

(** The optional exponent [[eE][-+]?[0-9]+]. *)
Definition scan_exp (s : string) : option (Z * string) :=
  match s with
  | String c r =>
      if Ascii.eqb c "e" || Ascii.eqb c "E" then
        let '(sign, r1) :=
          match r with
          | String "-" r1 => (-1, r1)
          | String "+" r1 => (1, r1)
          | _ => (1, r)
          end in
        let '(v, len, r2) := take_digits r1 0 0 in
        if 0 <? len then Some (sign * v, r2) else None
      else None
  | EmptyString => None
  end.

(** [NUMBER_RE.match]: an [int] when there is neither fraction nor
    exponent, a [float] otherwise. *)
Definition scan_number (s : string) : option (json * string) :=
  let '(neg, s1) :=
    match s with
    | String "-" r => (true, r)
    | _ => (false, s)
    end in
  match scan_intpart s1 with
  | None => None
  | Some (ip, r) =>
      match scan_frac r with
      | Some (fv, flen, r1) =>
          match scan_exp r1 with
          | Some (ex, r2) => Some (JFloat neg (ip * 10 ^ flen + fv) (ex - flen), r2)
          | None => Some (JFloat neg (ip * 10 ^ flen + fv) (- flen), r1)
          end
      | None =>
          match scan_exp r with
          | Some (ex, r2) => Some (JFloat neg ip ex, r2)
          | None => Some (JInt (if neg then - ip else ip), r)
          end
      end
  end.

(** The text after the prefix [p], when the text starts with [p]. *)
Fixpoint strip_prefix (p s : string) : option string :=
  match p, s with
  | EmptyString, _ => Some s
  | String a p', String b s' => if Ascii.eqb a b then strip_prefix p' s' else None
  | String _ _, EmptyString => None
  end.

(** A keyword at the head of the text. *)
Definition scan_literal (kw : string) (v : json) (s : string) : scan json :=
  match strip_prefix kw s with
  | Some r => Parsed v r
  | None => Invalid
  end.

(** [scan_once], [JSONObject] and [JSONArray].  [scan_members] starts just
    after the opening quote of a key, [scan_items] at a value. *)
Fixpoint scan_once (fuel : nat) (s : string) {struct fuel} : scan json :=
  match fuel with
  | O => NoFuel
  | S fuel =>
      match s with
      | EmptyString => Invalid
      | String c r =>
          if Ascii.eqb c dquote then
            scan_map JString (scanstring (S (String.length r)) r)
          else if Ascii.eqb c "{" then
            match skip_ws r with
            | String c1 r1 =>
                if Ascii.eqb c1 "}" then Parsed (JObject []) r1
                else if Ascii.eqb c1 dquote then scan_members fuel r1 []
                else Invalid
            | EmptyString => Invalid
            end
          else if Ascii.eqb c "[" then
            match skip_ws r with
            | String c1 r1 =>
                if Ascii.eqb c1 "]" then Parsed (JArray []) r1
                else scan_items fuel (String c1 r1) []
            | EmptyString => Invalid
            end
          else if Ascii.eqb c "n" then scan_literal "null" JNull s
          else if Ascii.eqb c "t" then scan_literal "true" (JBool true) s
          else if Ascii.eqb c "f" then scan_literal "false" (JBool false) s
          else
            match scan_number s with
            | Some (v, r') => Parsed v r'
            | None =>
                if Ascii.eqb c "N" then scan_literal "NaN" JNaN s
                else if Ascii.eqb c "I" then scan_literal "Infinity" (JInf false) s
                else if Ascii.eqb c "-" then scan_literal "-Infinity" (JInf true) s
                else Invalid
            end
      end
  end

with scan_members (fuel : nat) (s : string) (acc : list (string * json))
       {struct fuel} : scan json :=
  match fuel with
  | O => NoFuel
  | S fuel =>
      match scanstring (S (String.length s)) s with
      | Parsed key r =>
          match skip_ws r with
          | String c1 r1 =>
              if negb (Ascii.eqb c1 ":") then Invalid else
              match scan_once fuel (skip_ws r1) with
              | Parsed v r2 =>
                  let acc' := dict_set key v acc in
                  match skip_ws r2 with
                  | String c3 r3 =>
                      if Ascii.eqb c3 "}" then Parsed (JObject acc') r3
                      else if Ascii.eqb c3 "," then
                        match skip_ws r3 with
                        | String c4 r4 =>
                            if Ascii.eqb c4 dquote
                            then scan_members fuel r4 acc' else Invalid
                        | EmptyString => Invalid
                        end
                      else Invalid
                  | EmptyString => Invalid
                  end
              | Invalid => Invalid
              | NoFuel => NoFuel
              end
          | EmptyString => Invalid
          end
      | Invalid => Invalid
      | NoFuel => NoFuel
      end
  end

with scan_items (fuel : nat) (s : string) (acc : list json)
       {struct fuel} : scan json :=
  match fuel with
  | O => NoFuel
  | S fuel =>
      match scan_once fuel s with
      | Parsed v r =>
          match skip_ws r with
          | String c1 r1 =>
              if Ascii.eqb c1 "]" then Parsed (JArray (acc ++ [v])) r1
              else if Ascii.eqb c1 "," then scan_items fuel (skip_ws r1) (acc ++ [v])
              else Invalid
          | EmptyString => Invalid
          end
      | Invalid => Invalid
      | NoFuel => NoFuel
      end
  end.

(** A budget is enough for a scanner when it exceeds twice the length of
    the text (by one more for [scan_items], which passes its text on to
    [scan_once]): the scanner then does not run out, and what it leaves is
    shorter than what it was given. *)
Definition once_ok (f : nat) : Prop :=
  forall s, (2 * String.length s < f)%nat ->
    scan_once f s <> NoFuel /\
    forall v r, scan_once f s = Parsed v r -> (String.length r < String.length s)%nat.

Definition members_ok (f : nat) : Prop :=
  forall s acc, (2 * String.length s < f)%nat ->
    scan_members f s acc <> NoFuel /\
    forall v r, scan_members f s acc = Parsed v r -> (String.length r < String.length s)%nat.

Definition items_ok (f : nat) : Prop :=
  forall s acc, (2 * String.length s + 1 < f)%nat ->
    scan_items f s acc <> NoFuel /\
    forall v r, scan_items f s acc = Parsed v r -> (String.length r < String.length s)%nat.

(** [JSONDecoder.decode]: one value between optional white space, nothing
    after it. *)
Definition decode (s : string) : scan json :=
  match scan_once (S (2 * String.length s)) (skip_ws s) with
  | Parsed v r =>
      match skip_ws r with
      | EmptyString => Parsed v EmptyString
      | _ => Invalid
      end
  | Invalid => Invalid
  | NoFuel => NoFuel
  end.

(** The UTF-8 encoding of U+FEFF, which [json.loads] refuses at the start
    of a [str]. *)
Definition bom : string :=
  String "239"%char (String "187"%char (String "191"%char EmptyString)).

(** [json.loads(s)] for a [str]; [None] stands for [JSONDecodeError].
    (The decoder of CPython also gives up, with other exceptions, on
    nesting deeper than the interpreter's recursion limit and on integer
    literals longer than its digit limit; these limits are not
    modelled.) *)
Definition loads (s : string) : option json :=
  if Py.startswith bom s then None
  else match decode s with
       | Parsed v _ => Some v
       | _ => None
       end.

End Json.

(* ===================================================================== *)
(** ** chainlint.py                                                        *)
(* ===================================================================== *)

Module Chainlint.
Import Json.

(** *** Exceptions and subscripting *)

Inductive exn : Type :=
| KeyError (key : string)
| TypeError.

(** A computation that returns or raises. *)
Inductive res (A : Type) : Type :=
| Ok (a : A)
| Raise (e : exn).
Arguments Ok {A} a.
Arguments Raise {A} e.

Definition bind {A B} (r : res A) (k : A -> res B) : res B :=
  match r with
  | Ok a => k a
  | Raise e => Raise e
  end.

Notation "'do' x <- e ; k" := (bind e (fun x => k))
  (at level 10, x name, e at level 100, k at level 200).

(** [v[key]] for a [str] key: a dict looks the key up and raises
    [KeyError] when it is absent; nothing else the decoder builds can be
    subscripted by a [str] ([TypeError]). *)
Definition getitem (v : json) (key : string) : res json :=
  match v with
  | JObject d =>
      match dict_get key d with
      | Some w => Ok w
      | None => Raise (KeyError key)
      end
  | _ => Raise TypeError
  end.

(** [type(v).__name__] *)
Definition type_name (v : json) : string :=
  match v with
  | JNull => "NoneType"
  | JBool _ => "bool"
  | JInt _ => "int"
  | JFloat _ _ _ | JNaN | JInf _ => "float"
  | JString _ => "str"
  | JArray _ => "list"
  | JObject _ => "dict"
  end.

(** The [str] of the [AttributeError] raised by [v.get] when [v] is not a
    dict. *)
Definition no_attribute_get (v : json) : string :=
  "'" +:+ type_name v +:+ "' object has no attribute 'get'".

(** *** [extract_json_from_text] *)

(** [re.search(r'(\{.*\})', text, re.DOTALL)]: the search takes the
    leftmost [{] from which a match exists, and the greedy [.*] then runs to
    the last [}] of the text.  [from_open] is the text from the first [{]
    on, [upto_last_close] its prefix ending at the last [}]; no [}] after
    the first [{] means no match at all. *)
Fixpoint from_open (s : string) : option string :=
  match s with
  | EmptyString => None
  | String c r => if Ascii.eqb c "{" then Some s else from_open r
  end.

Fixpoint upto_last_close (s : string) : option string :=
  match s with
  | EmptyString => None
  | String c r =>
      match upto_last_close r with
      | Some p => Some (String c p)
      | None => if Ascii.eqb c "}" then Some (String c EmptyString) else None
      end
  end.

Definition search_braces (text : string) : option string :=
  match from_open text with
  | Some s => upto_last_close s
  | None => None
  end.

(** The function returns the decoded value, or Python's [None] ([JNull])
    when nothing matched or decoding raised. *)
Definition extract_json_from_text (text : string) : json :=
  match search_braces text with
  | Some json_str =>
      match Json.loads json_str with
      | Some v => v
      | None => JNull
      end
  | None => JNull
  end.

(** *** [LLMClient.generate_response], from the model's text on *)

Definition text_response (content : string) : json :=
  JObject [("type", JString "text"); ("content", JString content)].

(** The [if isinstance(parsed, dict) and parsed.get("action") == "use_tool"]
    branch: the dict it returns, if it is taken. *)
Definition tool_call_of_parsed (parsed : json) : option json :=
  match parsed with
  | JObject d =>
      if eq_str (default JNull (dict_get "action" d)) "use_tool" then
        Some (JObject [("type", JString "tool_call");
                       ("tool", default JNull (dict_get "tool" d));
                       ("arguments", default (JObject []) (dict_get "arguments" d))])
      else None
  | _ => None
  end.

(** The [arguments] entry of the dict [generate_response] builds for a tool
    call. *)
Definition tool_call_arguments (parsed : json) : option json :=
  match tool_call_of_parsed parsed with
  | Some (JObject r) => dict_get "arguments" r
  | _ => None
  end.

(** [content] is the reply of the model, already stripped. *)
Definition generate_response (content : string) : json :=
  match Json.loads content with
  | Some parsed =>
      match tool_call_of_parsed parsed with
      | Some r => r
      | None => text_response content
      end
  | None => text_response content
  end.

(** *** The message handler [main], from the response on *)

(** What the handler does with a response: it calls
    [handle_tool_call(tool, arguments, messages)], or it sends [content] as
    the assistant's message and appends it to the conversation. *)
Inductive action : Type :=
| ToolAction (tool_name : json) (arguments : json)
| TextAction (content : json).

Definition main (response : json) : res action :=
  do content <- getitem response "content";
  match content with
  | JString text =>
      let response := extract_json_from_text text in
      do act <- getitem response "action";
      if eq_str act "use_tool" then
        do tool <- getitem response "tool";
        do arguments <- getitem response "arguments";
        Ok (ToolAction tool arguments)
      else
        do content <- getitem response "content";
        Ok (TextAction content)
  | _ => Raise TypeError
  end.

(** The whole path from the model's text to the action taken. *)
Definition handle_reply (content : string) : res action :=
  main (generate_response content).

(** *** [MCPClient] *)

Inductive request : Type :=
| GetResources
| Get (path : string) (params : json)
| Post (path : string) (body : json)
| DeleteEvent (event_id : json).

(** What the HTTP client gives back for a request: the decoded body, or an
    exception (transport failure, error status, undecodable body) with its
    [str]. *)
Inductive http_result : Type :=
| Response (body : json)
| Failure (msg : string).

Record client : Type := mkClient {
  connected : bool;
  available_tools : list (string * string)
}.

Definition tool_list : list (string * string) :=
  [("search_news", "Search for news articles using NewsAPI");
   ("get_top_headlines", "Get top headlines from NewsAPI");
   ("search_web", "Search the web using SerpAPI");
   ("parse_rss_feed", "Parse and retrieve articles from RSS feed");
   ("add_event", "Add an event to the calendar");
   ("get_events", "Get events from the calendar");
   ("delete_event", "Delete an event from the calendar");
   ("update_config", "Update server configuration")].

(** The tool names of the catalog. *)
Definition catalog : list string := map fst tool_list.

Definition error_result (msg : string) : json := JObject [("error", JString msg)].

(** The requests that carry out a tool's backend operation: all but the
    listing of resources done when connecting. *)
Definition is_backend_call (r : request) : bool :=
  match r with
  | GetResources => false
  | _ => true
  end.

(** The body of the [try] in [call_tool] up to the request: the request to
    send, a result returned without one, or an exception raised before
    one. *)
Inductive routed : Type :=
| Send (r : request)
| Return (result : json)
| Raises (msg : string).

Definition route (tool_name : string) (arguments : json) : routed :=
  if String.eqb tool_name "search_news" then Send (Get "/news/search" arguments)
  else if String.eqb tool_name "get_top_headlines" then Send (Get "/news/headlines" arguments)
  else if String.eqb tool_name "search_web" then Send (Get "/web/search" arguments)
  else if String.eqb tool_name "parse_rss_feed" then Send (Get "/rss/parse" arguments)
  else if String.eqb tool_name "add_event" then Send (Post "/events" arguments)
  else if String.eqb tool_name "get_events" then Send (Get "/events" arguments)
  else if String.eqb tool_name "delete_event" then
    match arguments with
    | JObject d =>
        let event_id := default JNull (dict_get "event_id" d) in
        if negb (truthy event_id) then Return (error_result "event_id is required")
        else Send (DeleteEvent event_id)
    | _ => Raises (no_attribute_get arguments)
    end
  else if String.eqb tool_name "update_config" then Send (Post "/config" arguments)
  else Return (error_result ("Unknown tool: " +:+ tool_name)).

Section Client.

(** The REST server as the client sees it. *)
Variable backend : request -> http_result.

(** [list_tools]: one request for [/resources]; the fixed list when it
    succeeds, the empty list when anything fails. *)
Definition list_tools : list (string * string) * list request :=
  (match backend GetResources with
   | Response _ => tool_list
   | Failure _ => []
   end, [GetResources]).

(** [connect]: [list_tools] never raises, so the client always ends up
    marked connected. *)
Definition connect (c : client) : client * list request :=
  let '(tools, trace) := list_tools in
  (mkClient true tools, trace).

(** [call_tool]: the result, the client afterwards and the requests made,
    in order. *)
Definition call_tool (c : client) (tool_name : string) (arguments : json)
  : json * client * list request :=
  let '(c1, t1) := if connected c then (c, []) else connect c in
  match route tool_name arguments with
  | Send r =>
      (match backend r with
       | Response body => body
       | Failure msg => error_result msg
       end, c1, t1 ++ [r])
  | Return result => (result, c1, t1)
  | Raises msg => (error_result msg, c1, t1)
  end.

End Client.

End Chainlint.

(* ===================================================================== *)
(** ** lib/utils.py                                                        *)
(* ===================================================================== *)

Module Utils.

(** *** [urllib.parse.urlparse], as far as [validate_url] reads it *)

(** The scheme and the host name of the parsed URL; [hostname] is Python's
    [None] when the URL names no host. *)
Record parsed_url : Type := mkParsed {
  scheme : string;
  hostname : option string
}.

Definition is_scheme_char (c : ascii) : bool :=
  Py.is_alpha c || Py.is_digit c
  || Ascii.eqb c "+" || Ascii.eqb c "-" || Ascii.eqb c ".".

Fixpoint all_chars (p : ascii -> bool) (s : string) : bool :=
  match s with
  | EmptyString => true
  | String c r => p c && all_chars p r
  end.

(** Leading C0 control characters and spaces are stripped. *)
Fixpoint lstrip_c0 (s : string) : string :=
  match s with
  | String c r => if Py.ascii_code c <=? 32 then lstrip_c0 r else s
  | EmptyString => EmptyString
  end.

(** Tabs, carriage returns and line feeds are removed everywhere. *)
Fixpoint remove_unsafe (s : string) : string :=
  match s with
  | EmptyString => EmptyString
  | String c r =>
      let n := Py.ascii_code c in
      if (n =? 9) || (n =? 10) || (n =? 13) then remove_unsafe r
      else String c (remove_unsafe r)
  end.

(** The scheme is the text before the first colon when that text starts
    with a letter and consists of scheme characters; it is lower-cased.
    Returns the scheme and the rest of the URL. *)
Definition split_scheme (url : string) : string * string :=
  match Py.partition ":" url with
  | (String c0 r0 as pre, Some rest) =>
      if Py.is_alpha c0 && all_chars is_scheme_char pre
      then (Py.lower pre, rest) else (EmptyString, url)
  | _ => (EmptyString, url)
  end.

(** [_splitnetloc]: the text up to the first of [/], [?] and [#]. *)
Fixpoint take_netloc (s : string) : string :=
  match s with
  | EmptyString => EmptyString
  | String c r =>
      if Ascii.eqb c "/" || Ascii.eqb c "?" || Ascii.eqb c "#" then EmptyString
      else String c (take_netloc r)
  end.

(** [_hostinfo] and [hostname]: user information before the last [@] is
    dropped; a bracketed host is the text between the brackets, any other
    host the text before the first colon; an empty host is [None]; the host
    is lower-cased up to a zone separator [%]. *)
Definition hostname_of_netloc (netloc : string) : option string :=
  let hostinfo := snd (Py.rpartition "@" netloc) in
  let host :=
    match Py.partition "[" hostinfo with
    | (_, Some bracketed) => fst (Py.partition "]" bracketed)
    | (_, None) => fst (Py.partition ":" hostinfo)
    end in
  match host with
  | EmptyString => None
  | _ =>
      match Py.partition "%" host with
      | (h, Some zone) => Some (Py.lower h +:+ "%" +:+ zone)
      | (h, None) => Some (Py.lower h)
      end
  end.

(** [urlparse(url)]; [None] stands for the [ValueError] raised on a
    netloc with an unmatched bracket.  The model covers URLs of ASCII
    characters; the validation of the address inside a matched pair of
    brackets, which recent CPython versions add, is left out. *)
Definition urlparse (url : string) : option parsed_url :=
  let url := remove_unsafe (lstrip_c0 url) in
  let '(sch, rest) := split_scheme url in
  match rest with
  | String "/" (String "/" after) =>
      let netloc := take_netloc after in
      if xorb (Py.contains_char "[" netloc) (Py.contains_char "]" netloc)
      then None
      else Some (mkParsed sch (hostname_of_netloc netloc))
  | _ => Some (mkParsed sch None)
  end.

(** *** [validate_url] *)

Definition has_prefix (p : string) (h : option string) : bool :=
  match h with
  | Some s => negb (String.eqb s EmptyString) && Py.startswith p s
  | None => false
  end.

(** The checks of [validate_url] on the parsed URL. *)
Definition validate_parsed (parsed : parsed_url) : bool :=
  if negb (existsb (String.eqb (scheme parsed)) ["http"; "https"]) then false
  else if match hostname parsed with
          | Some h => existsb (String.eqb h) ["localhost"; "127.0.0.1"; "0.0.0.0"]
          | None => false
          end then false
  else if has_prefix "192.168." (hostname parsed) then false
  else if has_prefix "10." (hostname parsed) then false
  else if has_prefix "172." (hostname parsed) then
    let octets := Py.split "." (default EmptyString (hostname parsed)) in
    if (length octets =? 4)%nat then
      match Py.int_of_str (nth 1 octets EmptyString) with
      | Some n => if (16 <=? n) && (n <=? 31) then false else true
      | None => false
      end
    else true
  else true.

(** [validate_url]: any exception means [False]. *)
Definition validate_url (url : string) : bool :=
  match urlparse url with
  | Some parsed => validate_parsed parsed
  | None => false
  end.

(** *** [fetch_single_rss_feed] *)

(** What [feedparser.parse] found: the fields the code reads, each absent
    or present. *)
Record raw_entry : Type := mkRawEntry {
  raw_title : option string;
  raw_link : option string;
  raw_description : option string;
  raw_published : option string;
  raw_author : option string
}.

Record raw_feed : Type := mkRawFeed {
  raw_feed_title : option string;
  raw_feed_description : option string;
  raw_entries : list raw_entry
}.

Record entry : Type := mkEntry {
  title : string;
  link : string;
  description : string;
  published : string;
  author : string
}.

Record feed_data : Type := mkFeedData {
  feed_title : string;
  feed_description : string;
  entries : list entry;
  total_entries : nat
}.

(** The dict a task produces for its feed: [{"url", "data"}] or
    [{"url", "error"}]; [ErrorOnly] is the [{"error"}] that
    [fetch_feeds_concurrent] writes for an exception object. *)
Inductive feed_result : Type :=
| FeedData (url : string) (data : feed_data)
| FeedError (url : string) (error : string)
| ErrorOnly (error : string).

(** The ["url"] of a result dict, if it has one. *)
Definition result_url (r : feed_result) : option string :=
  match r with
  | FeedData url _ | FeedError url _ => Some url
  | ErrorOnly _ => None
  end.

(** The outcome of [session.get(url)] followed by [raise_for_status()]:
    the text of the response, or an exception with its [str]. *)
Inductive http_reply : Type :=
| HttpText (text : string)
| HttpRaise (msg : string).

(** [l[:n]] *)
Definition slice_to {A} (n : Z) (l : list A) : list A :=
  if 0 <=? n then firstn (Z.to_nat n) l
  else firstn (Z.to_nat (Z.of_nat (length l) + n)) l.

Definition convert_entry (e : raw_entry) : entry :=
  mkEntry (default EmptyString (raw_title e)) (default EmptyString (raw_link e))
          (default EmptyString (raw_description e)) (default EmptyString (raw_published e))
          (default EmptyString (raw_author e)).

Section Fetch.

(** The parser of feeds: the parsed feed, or an exception with its
    [str]. *)
Variable feedparser_parse : string -> raw_feed + string.

(** The result for one feed and the URLs requested over the network.
    [session] answers the request of this call. *)
Definition fetch_single_rss_feed (session : string -> http_reply)
    (feed_url : string) (max_entries : Z) : feed_result * list string :=
  if negb (validate_url feed_url) then
    (FeedError feed_url "Invalid or unsafe URL", [])
  else
    (match session feed_url with
     | HttpRaise msg => FeedError feed_url msg
     | HttpText text =>
         match feedparser_parse text with
         | inr msg => FeedError feed_url msg
         | inl feed =>
             let entries :=
               map convert_entry (slice_to max_entries (raw_entries feed)) in
             FeedData feed_url
               (mkFeedData (default EmptyString (raw_feed_title feed))
                           (default EmptyString (raw_feed_description feed))
                           entries (length entries))
         end
     end, [feed_url]).

End Fetch.

End Utils.

(* ===================================================================== *)
(** ** lib/services.py                                                     *)
(* ===================================================================== *)

Module Services.
Import Utils.

(** What [asyncio.gather(..., return_exceptions=True)] holds for a task:
    the value it returned, or the exception that ended it. *)
Inductive gathered : Type :=
| Returned (r : feed_result)
| Excepted (msg : string).

Record aggregate : Type := mkAggregate {
  feeds : list feed_result;
  total_feeds : nat
}.

(** The loop over [results]: an exception object becomes [{"error"}]. *)
Definition process (g : gathered) : feed_result :=
  match g with
  | Returned r => r
  | Excepted msg => ErrorOnly msg
  end.

Definition make_aggregate (results : list gathered) : aggregate :=
  let processed_results := map process results in
  mkAggregate processed_results (length processed_results).

(** A task of the fan-out: created by the list comprehension, waiting in
    the queue of the semaphore, holding a slot of the semaphore (inside
    [async with semaphore]), or finished with what [gather] keeps for
    it. *)
Inductive status : Type :=
| Created
| Waiting
| InFlight
| Done (g : gathered).

(** The tasks by position in [feed_urls], the counter of the semaphore and
    its queue of waiting tasks, oldest first. *)
Record sched : Type := mkSched {
  tasks : list status;
  value : nat;
  waiters : list nat
}.

Definition is_in_flight (t : status) : bool :=
  match t with InFlight => true | _ => false end.

Definition is_created (t : status) : bool :=
  match t with Created => true | _ => false end.

(** Steps a task still has to take: start, get a slot, finish. *)
Definition remaining (t : status) : nat :=
  match t with
  | Created => 3
  | Waiting => 2
  | InFlight => 1
  | Done _ => 0
  end%nat.

(** Steps the event loop still owes a task: its start and its finish. *)
Definition work (t : status) : nat :=
  match t with
  | Created => 2
  | Waiting | InFlight => 1
  | Done _ => 0
  end%nat.

(** Sum of a weight over the tasks. *)
Definition weigh (f : status -> nat) (l : list status) : nat :=
  foldr (fun t n => (f t + n)%nat) 0%nat l.

(** The number of tasks holding a slot. *)
Definition in_flight (s : sched) : nat :=
  weigh (fun t => if is_in_flight t then 1%nat else 0%nat) (tasks s).

(** [asyncio.Semaphore(value)] refuses a negative value with
    [ValueError]; the tasks are created before any of them runs. *)
Definition start (feed_urls : list string) (cap : nat) : sched :=
  mkSched (replicate (length feed_urls) Created) cap [].

Definition init (feed_urls : list string) (max_concurrent : Z) : option sched :=
  if max_concurrent <? 0 then None
  else Some (start feed_urls (Z.to_nat max_concurrent)).

(** [Semaphore.acquire] by task [i]: the slot is taken at once when the
    counter is positive and nobody waits; otherwise the task joins the end
    of the queue. *)
Definition acquire (i : nat) (s : sched) : sched :=
  if (0 <? value s)%nat && bool_decide (waiters s = []) then
    mkSched (<[i := InFlight]> (tasks s)) (value s - 1) (waiters s)
  else
    mkSched (<[i := Waiting]> (tasks s)) (value s) (waiters s ++ [i]).

(** [Semaphore.release]: the counter goes up and, if a task waits, the
    oldest one is woken with the slot (the counter goes down again). *)
Definition release (s : sched) : sched :=
  match waiters s with
  | w :: ws => mkSched (<[w := InFlight]> (tasks s)) (value s) ws
  | [] => mkSched (tasks s) (S (value s)) []
  end.

(** Task [i] leaves [async with semaphore] with [g]. *)
Definition finish (i : nat) (g : gathered) (s : sched) : sched :=
  release (mkSched (<[i := Done g]> (tasks s)) (value s) (waiters s)).

(** [gather] returns once every task is done, with the results by
    position. *)
Definition results_of (s : sched) : option (list gathered) :=
  mapM (fun t => match t with Done g => Some g | _ => None end) (tasks s).

(** The value [fetch_feeds_concurrent] returns from a state, when [gather]
    has returned. *)
Definition returned (s : sched) : option aggregate :=
  option_map make_aggregate (results_of s).

Section Fetcher.

Variable feedparser_parse : string -> raw_feed + string.

(** [client i url]: what the shared HTTP client answers to the request of
    the task at position [i]. *)
Variable client : nat -> string -> http_reply.

(** The entry of the task at position [i]. *)
Definition entry_of (i : nat) (feed_url : string) : feed_result :=
  fst (fetch_single_rss_feed feedparser_parse (client i) feed_url 5).

(** [fetch_with_semaphore]: what the task hands to [gather].
    [fetch_single_rss_feed] catches every exception, so the task always
    returns. *)
Definition fetch_with_semaphore (i : nat) (feed_url : string) : gathered :=
  Returned (entry_of i feed_url).

Variable feed_urls : list string.

(** One step of the event loop.  Tasks start in the order of their
    creation; the task that starts tries to take a slot.  Any task holding
    a slot may finish next, whatever the order of the requests'
    completion. *)
Inductive step : sched -> sched -> Prop :=
| step_start (i : nat) (s : sched) :
    tasks s !! i = Some Created ->
    (forall j, (j < i)%nat -> tasks s !! j <> Some Created) ->
    step s (acquire i s)
| step_finish (i : nat) (feed_url : string) (s : sched) :
    tasks s !! i = Some InFlight ->
    feed_urls !! i = Some feed_url ->
    step s (finish i (fetch_with_semaphore i feed_url) s).

(** The states the call can be in. *)
Inductive reachable (s0 : sched) : sched -> Prop :=
| reach_init : reachable s0 s0
| reach_step (s s' : sched) : reachable s0 s -> step s s' -> reachable s0 s'.

(** What [gather] returns when it returns: the tasks' values by
    position. *)
Definition gather : list gathered := imap fetch_with_semaphore feed_urls.

(** What holds of every state of a call with [cap] slots: slots are held
    or free; the queue lists the waiting tasks, each once; tasks wait only
    while no slot is free; there is a task per URL; a finished task holds
    the value of its own fetch. *)
Record inv (cap : nat) (s : sched) : Prop := mkInv {
  inv_slots : (in_flight s + value s = cap)%nat;
  inv_queue : forall w, In w (waiters s) <-> tasks s !! w = Some Waiting;
  inv_nodup : NoDup (waiters s);
  inv_full : waiters s <> [] -> value s = 0%nat;
  inv_length : length (tasks s) = length feed_urls;
  inv_done : forall i g, tasks s !! i = Some (Done g) ->
             exists url, feed_urls !! i = Some url /\ g = fetch_with_semaphore i url
}.

(** The states reached after a given number of steps. *)
Inductive run (s0 : sched) : nat -> sched -> Prop :=
| run_init : run s0 0 s0
| run_step (n : nat) (s s' : sched) : run s0 n s -> step s s' -> run s0 (S n) s'.

End Fetcher.

End Services.

(* ===================================================================== *)
(** ** main_mcp.py and lib/models.py                                       *)
(* ===================================================================== *)

Module Server.
Import Json.

(** What an endpoint does: it answers, it raises [HTTPException] (its
    status and detail), or an exception escapes it. *)
Inductive http (A : Type) : Type :=
| Answer (a : A)
| HTTPException (status : Z) (detail : string)
| Unhandled (exception : string).
Arguments Answer {A} a.
Arguments HTTPException {A} status detail.
Arguments Unhandled {A} exception.

(** *** [datetime.strptime] for the two formats in use, on ASCII text

    The fields are read as ASCII digits.  The library also reads the
    decimal digits of other scripts, so these two functions are what
    [strptime] does on a text of ASCII characters; the endpoints below take
    the library functions as they are, on any text. *)

Definition digits_value (s : string) : Z := fst (fst (take_digits s 0 0)).

Definition all_digits (s : string) : bool := Utils.all_chars Py.is_digit s.

(** [%Y]: exactly four digits. *)
Definition parse_Y (s : string) : option Z :=
  if (String.length s =? 4)%nat && all_digits s then Some (digits_value s) else None.

(** [%m]: [1[0-2]|0[1-9]|[1-9]]. *)
Definition parse_m (s : string) : option Z :=
  let v := digits_value s in
  if all_digits s && ((String.length s =? 1)%nat || (String.length s =? 2)%nat)
     && (1 <=? v) && (v <=? 12)
  then Some v else None.

(** [%d]: [3[0-1]|[1-2]\d|0[1-9]|[1-9]| [1-9]]. *)
Definition parse_d (s : string) : option Z :=
  let s' := match s with
            | String " " (String c EmptyString) => String c EmptyString
            | _ => s
            end in
  let v := digits_value s' in
  if all_digits s' && ((String.length s' =? 1)%nat || (String.length s' =? 2)%nat)
     && (1 <=? v) && (v <=? 31)
  then Some v else None.

(** [%H]: [2[0-3]|[0-1]\d|\d]. *)
Definition parse_H (s : string) : option Z :=
  let v := digits_value s in
  if all_digits s && ((String.length s =? 1)%nat || (String.length s =? 2)%nat)
     && (v <=? 23)
  then Some v else None.

(** [%M]: [[0-5]\d|\d]. *)
Definition parse_M (s : string) : option Z :=
  let v := digits_value s in
  if all_digits s && ((String.length s =? 1)%nat || (String.length s =? 2)%nat)
     && (v <=? 59)
  then Some v else None.

Definition is_leap (y : Z) : bool :=
  ((y mod 4 =? 0) && negb (y mod 100 =? 0)) || (y mod 400 =? 0).

Definition days_in_month (y m : Z) : Z :=
  if m =? 2 then (if is_leap y then 29 else 28)
  else if (m =? 4) || (m =? 6) || (m =? 9) || (m =? 11) then 30
  else 31.

(** Days of the year before the first of month [m]. *)
Definition days_before_month (y m : Z) : Z :=
  fold_right Z.add 0 (map (days_in_month y) (map Z.of_nat (seq 1 (Z.to_nat (m - 1))))).

(** [date(y, m, d).toordinal()]: day 1 is 0001-01-01. *)
Definition ordinal (y m d : Z) : Z :=
  let y1 := y - 1 in
  y1 * 365 + y1 / 4 - y1 / 100 + y1 / 400 + days_before_month y m + d.

(** [date.max.toordinal()], the ordinal of 9999-12-31. *)
Definition max_ordinal : Z := 3652059.

(** [datetime.strptime(s, "%Y-%m-%d").date()] as an ordinal; [None] stands
    for [ValueError].  The three fields are separated by single hyphens;
    year 0 and days past the end of the month are refused. *)
Definition ascii_strptime_date (s : string) : option Z :=
  match Py.split "-" s with
  | [ys; ms; ds] =>
      match parse_Y ys, parse_m ms, parse_d ds with
      | Some y, Some m, Some d =>
          if (1 <=? y) && (d <=? days_in_month y m) then Some (ordinal y m d)
          else None
      | _, _, _ => None
      end
  | _ => None
  end.

(** Does [datetime.strptime(s, "%H:%M")] succeed? *)
Definition ascii_strptime_time (s : string) : bool :=
  match Py.split ":" s with
  | [hs; ms] =>
      match parse_H hs, parse_M ms with
      | Some _, Some _ => true
      | _, _ => false
      end
  | _ => false
  end.

(** *** Events *)

(** A stored event: the dict with the seven keys [add_event] writes. *)
Record event : Type := mkEvent {
  id : string;
  title : string;
  description : string;
  date : string;
  time : string;
  location : string;
  created_at : string
}.

(** The body of a request to add an event, as [EventCreate] holds it. *)
Record EventCreate : Type := mkEventCreate {
  ec_title : string;
  ec_date : string;
  ec_description : string;
  ec_time : string;
  ec_location : string
}.



Section Events.

(** The library functions the event endpoints call, on any [str]:
    [datetime.strptime(s, "%Y-%m-%d").date()] as an ordinal, where [None]
    stands for [ValueError]; whether [datetime.strptime(s, "%H:%M")]
    succeeds; and [s.strip()]. *)
Variable strptime_date : string -> option Z.
Variable strptime_time : string -> bool.
Variable str_strip : string -> string.

(** The validators of [EventCreate]: the date must parse; the time must
    parse unless it is empty or blank. *)
Definition validate_date (v : string) : bool :=
  match strptime_date v with Some _ => true | None => false end.

Definition validate_time (v : string) : bool :=
  if negb (String.eqb v EmptyString) && negb (String.eqb (str_strip v) EmptyString)
  then strptime_time v else true.

Definition valid_event (e : EventCreate) : bool :=
  validate_date (ec_date e) && validate_time (ec_time e).

(** The clock readings of one call of [add_event]:
    [int(datetime.now().timestamp())] and [datetime.now().isoformat()]. *)
Record clock : Type := mkClock {
  timestamp : Z;
  isoformat : string
}.

Definition new_event (events : list event) (now : clock) (e : EventCreate) : event :=
  mkEvent ("event_" +:+ pretty (Z.of_nat (length events) + 1) +:+ "_"
             +:+ pretty (timestamp now))
          (ec_title e) (ec_description e) (ec_date e) (ec_time e)
          (ec_location e) (isoformat now).

(** [add_event]: the response (the new event) and the store afterwards. *)
Definition add_event (events : list event) (now : clock) (e : EventCreate)
  : event * list event :=
  let ev := new_event events now e in
  (ev, events ++ [ev]).

(** [POST /events]: the body is validated before [add_event] runs; a body
    that fails validation is answered with status 422 and the store is not
    touched. *)
Definition post_events (events : list event) (now : clock) (e : EventCreate)
  : http event * list event :=
  if valid_event e then
    let '(ev, events') := add_event events now e in (Answer ev, events')
  else (HTTPException 422 "validation error", events).

(** The loop of [delete_event]: the index of the first event whose id is
    [event_id], counting from [i]. *)
Fixpoint find_event (events : list event) (event_id : string) (i : nat)
  : option nat :=
  match events with
  | [] => None
  | ev :: rest =>
      if String.eqb (id ev) event_id then Some i
      else find_event rest event_id (S i)
  end.

(** [delete_event]: the first event with the given id is popped and
    returned; when the loop finds none the call raises 404. *)
Definition delete_event (events : list event) (event_id : string)
  : http event * list event :=
  match find_event events event_id 0 with
  | Some i =>
      match events !! i with
      | Some deleted_event => (Answer deleted_event, delete i events)
      | None => (Unhandled "IndexError", events)
      end
  | None => (HTTPException 404 "Event not found", events)
  end.

(** The sort key [(x["date"], x.get("time", "00:00"))]; a stored event
    always has its [time], so the default is never used.  Tuples of [str]
    compare lexicographically, a [str] by code points. *)
Definition key_lt (a b : event) : bool :=
  match String.compare (date a) (date b) with
  | Lt => true
  | Gt => false
  | Eq => String.ltb (time a) (time b)
  end.



(** Two events have the same key. *)
Definition same_key (a b : event) : bool :=
  String.eqb (date a) (date b) && String.eqb (time a) (time b).

(** [list.sort(key=...)]: a stable sort.  [insert_sorted] puts an event
    before the first one that is not smaller, so equal keys keep the order
    they came in. *)
Fixpoint insert_sorted (x : event) (l : list event) : list event :=
  match l with
  | [] => [x]
  | y :: l' => if key_lt y x then y :: insert_sorted x l' else x :: l
  end.

Fixpoint sort_events (l : list event) : list event :=
  match l with
  | [] => []
  | x :: l' => insert_sorted x (sort_events l')
  end.

Record events_response : Type := mkEventsResponse {
  resp_events : list event;
  total_count : nat
}.

(** [if date:] takes the first branch for a [str] that is not empty. *)
Definition given (date_arg : option string) : option string :=
  match date_arg with
  | Some EmptyString => None
  | other => other
  end.

(** [get_events(date, days_ahead)].  [today] is the ordinal of
    [datetime.now().date()].  Adding the [timedelta] raises
    [OverflowError] when the end date leaves the range of [date]. *)
Definition get_events (events : list event) (today : Z)
    (date_arg : option string) (days_ahead : Z) : http events_response :=
  let respond (filtered : list event) :=
    let sorted := sort_events filtered in
    Answer (mkEventsResponse sorted (length sorted)) in
  match given date_arg with
  | Some d =>
      match strptime_date d with
      | None => HTTPException 400 "Invalid date format. Use YYYY-MM-DD"
      | Some _ => respond (List.filter (fun ev => String.eqb (date ev) d) events)
      end
  | None =>
      let end_date := today + days_ahead in
      if (1 <=? end_date) && (end_date <=? max_ordinal) then
        respond (List.filter (fun ev =>
                           match strptime_date (date ev) with
                           | Some o => (today <=? o) && (o <=? end_date)
                           | None => false
                           end) events)
      else Unhandled "OverflowError"
  end.

End Events.


(** *** Configuration *)

(** A run of digits with single underscores between digits, as [float()]
    reads it: its value, the number of digits, the text left.  [None] when
    the text does not start with a digit or an underscore is misplaced. *)
Fixpoint digitpart (s : string) (acc : Z) (len : Z) (prev_digit : bool)
  : option (Z * Z * string) :=
  match s with
  | String c r =>
      if Py.is_digit c then digitpart r (10 * acc + Py.digit_val c) (len + 1) true
      else if Ascii.eqb c "_" then
        (if prev_digit then
           match r with
           | String c' _ => if Py.is_digit c' then digitpart r acc len false else None
           | EmptyString => None
           end
         else None)
      else if prev_digit then Some (acc, len, s) else None
  | EmptyString => if prev_digit then Some (acc, len, s) else None
  end.

(** The exponent of a float literal, if any; [None] when an exponent
    marker is not followed by digits. *)
Definition float_exponent (s : string) : option Z :=
  match s with
  | EmptyString => Some 0
  | String c r =>
      if Ascii.eqb c "e" || Ascii.eqb c "E" then
        let '(sign, r1) :=
          match r with
          | String "-" r1 => (-1, r1)
          | String "+" r1 => (1, r1)
          | _ => (1, r)
          end in
        match digitpart r1 0 0 false with
        | Some (v, _, EmptyString) => Some (sign * v)
        | _ => None
        end
      else None
  end.

(** Is [m * 10 ^ e], for [0 <= m], too large for a [float]?  The largest
    one is [(2^53 - 1) * 2^971]; rounding to nearest takes everything from
    [(2^54 - 1) * 2^970] on to infinity. *)
Definition float_overflows (m e : Z) : bool :=
  let bound := (2 ^ 54 - 1) * 2 ^ 970 in
  if 0 <=? e then bound <=? m * 10 ^ e else bound * 10 ^ (- e) <=? m.

(** The [float] a decimal literal is read as: [inf] when it is too
    large. *)
Definition make_float (neg : bool) (m e : Z) : json :=
  if float_overflows m e then JInf neg else JFloat neg m e.

(** The unsigned part of a float literal: digits with an optional point,
    or a point followed by digits, then an optional exponent. *)
Definition float_number (neg : bool) (s : string) : option json :=
  let with_frac (ip : Z) (r : string) :=
    match digitpart r 0 0 false with
    | Some (fv, flen, r') =>
        option_map (fun ex => make_float neg (ip * 10 ^ flen + fv) (ex - flen))
                   (float_exponent r')
    | None => None
    end in
  match s with
  | String "." r => with_frac 0 r
  | _ =>
      match digitpart s 0 0 false with
      | Some (ip, _, String "." EmptyString) => Some (make_float neg ip 0)
      | Some (ip, _, String "." (String c r' as r)) =>
          if Py.is_digit c then with_frac ip r
          else option_map (fun ex => make_float neg ip ex) (float_exponent r)
      | Some (ip, _, r) => option_map (fun ex => make_float neg ip ex) (float_exponent r)
      | None => None
      end
  end.

(** [float(s)] for a [str] of ASCII characters; [None] stands for
    [ValueError]. *)
Definition float_of_str (s : string) : option json :=
  let '(neg, body) :=
    match Py.c_strip s with
    | String "-" r => (true, r)
    | String "+" r => (false, r)
    | r => (false, r)
    end in
  let word := Py.lower body in
  if String.eqb word "inf" || String.eqb word "infinity" then Some (JInf neg)
  else if String.eqb word "nan" then Some JNaN
  else float_number neg body.

(** [int(s)] as a stored value. *)
Definition int_value (s : string) : option json := option_map JInt (Py.int_of_str s).

(** The request body of [POST /config]. *)
Record ConfigUpdate : Type := mkConfigUpdate {
  setting : string;
  value : string
}.

Definition allowed_settings : list string :=
  ["default_country"; "default_language"; "max_articles";
   "api_timeout"; "max_concurrent_requests"].

(** The validator of [ConfigUpdate.setting]. *)
Definition validate_setting (v : string) : bool :=
  existsb (String.eqb v) allowed_settings.

Record config_response : Type := mkConfigResponse {
  resp_setting : string;
  old_value : option json;
  new_value : json
}.

(** [update_config]: the value is converted for the numeric settings, then
    stored under the setting's key. *)
Definition update_config (config : gmap string json) (u : ConfigUpdate)
  : http config_response * gmap string json :=
  let converted : http json :=
    if existsb (String.eqb (setting u)) ["max_articles"; "max_concurrent_requests"] then
      match int_value (value u) with
      | Some v => Answer v
      | None => HTTPException 400
                  ("Invalid value for " +:+ setting u +:+ ": must be integer")
      end
    else if String.eqb (setting u) "api_timeout" then
      match float_of_str (value u) with
      | Some v => Answer v
      | None => HTTPException 400
                  ("Invalid value for " +:+ setting u +:+ ": must be numeric")
      end
    else Answer (JString (value u)) in
  match converted with
  | Answer v =>
      (Answer (mkConfigResponse (setting u) (config !! setting u) v),
       <[setting u := v]> config)
  | HTTPException st d => (HTTPException st d, config)
  | Unhandled e => (Unhandled e, config)
  end.

(** The type each setting has in the configuration of
    [get_default_config], and keeps. *)
Definition is_int (v : json) : bool :=
  match v with JInt _ => true | _ => false end.

Definition is_float (v : json) : bool :=
  match v with JFloat _ _ _ | JNaN | JInf _ => true | _ => false end.

Definition is_str (v : json) : bool :=
  match v with JString _ => true | _ => false end.

Definition setting_type_ok (k : string) (v : json) : bool :=
  if existsb (String.eqb k) ["max_articles"; "max_concurrent_requests"] then is_int v
  else if String.eqb k "api_timeout" then is_float v
  else if existsb (String.eqb k) ["default_country"; "default_language"] then is_str v
  else true.

Definition well_typed (config : gmap string json) : Prop :=
  map_Forall (fun k v => setting_type_ok k v = true) config.

(** The filter of [get_events] for a date. *)
Definition on_date (d : string) (ev : event) : bool := String.eqb (date ev) d.

(** Can [json.dumps(v, allow_nan=False)] write the value?  It raises
    [ValueError] for a [float] that is not finite, and so does the
    conversion of an [int] of more than [sys.int_max_str_digits] digits. *)
Fixpoint json_compliant (v : json) : bool :=
  match v with
  | JNaN | JInf _ => false
  | JFloat _ m e => negb (float_overflows m e)
  | JInt n => Z.abs n <? 10 ^ Py.int_max_str_digits
  | JArray l => forallb json_compliant l
  | JObject kvs => forallb (fun kv => let '(_, x) := kv in json_compliant x) kvs
  | _ => true
  end.

(** The framework turns the [dict] an endpoint returns into the body of
    the response after the endpoint has run: when a value of it cannot be
    written the request ends in [ValueError] (status 500), with the
    configuration as the endpoint left it. *)
Definition send_response (out : http config_response * gmap string json)
  : http config_response * gmap string json :=
  match out with
  | (Answer r, config') =>
      if json_compliant (new_value r)
         && match old_value r with Some v => json_compliant v | None => true end
      then (Answer r, config')
      else (Unhandled "ValueError", config')
  | other => other
  end.

(** [POST /config]: the body is validated before [update_config] runs; a
    setting outside the allow-list is answered with status 422.  What
    [update_config] returns is then sent. *)
Definition post_config (config : gmap string json) (u : ConfigUpdate)
  : http config_response * gmap string json :=
  if validate_setting (setting u) then send_response (update_config config u)
  else (HTTPException 422 "Invalid setting", config).

End Server.

(* ===================================================================== *)
(** ** lib/services.py: a single feed                                      *)
(* ===================================================================== *)

Module SingleFeed.
Import Utils.

(** What [client.get(url)] followed by [raise_for_status()] gives in
    [parse_single_feed]: the text of the response, an
    [httpx.TimeoutException], or any other exception, with its [str]. *)
Inductive get_outcome : Type :=
| Got (text : string)
| TimedOut (msg : string)
| Failed (msg : string).

(** The same outcome as [fetch_single_rss_feed] sees it, where every
    exception is handled alike. *)
Definition as_reply (o : get_outcome) : http_reply :=
  match o with
  | Got text => HttpText text
  | TimedOut msg | Failed msg => HttpRaise msg
  end.

Section Parse.

Variable feedparser_parse : string -> raw_feed + string.

(** [RSSService.parse_single_feed]: the answer and the URLs requested.  A
    refused URL raises 400 before the [try]; inside it a timeout becomes
    504 and every other exception 500. *)
Definition parse_single_feed (client : string -> get_outcome)
    (url : string) (max_entries : Z) : Server.http feed_data * list string :=
  if negb (validate_url url) then
    (Server.HTTPException 400 "Invalid or unsafe URL", [])
  else
    (match client url with
     | TimedOut _ => Server.HTTPException 504 "RSS feed request timed out"
     | Failed msg => Server.HTTPException 500 ("RSS parsing failed: " +:+ msg)
     | Got text =>
         match feedparser_parse text with
         | inr msg => Server.HTTPException 500 ("RSS parsing failed: " +:+ msg)
         | inl feed =>
             let entries :=
               map convert_entry (slice_to max_entries (raw_entries feed)) in
             Server.Answer
               (mkFeedData (default EmptyString (raw_feed_title feed))
                           (default EmptyString (raw_feed_description feed))
                           entries (length entries))
         end
     end, [url]).

End Parse.

End SingleFeed.

(* ===================================================================== *)
(** ** mcp_server.py                                                       *)
(* ===================================================================== *)

Module McpServer.
Import Json Server.

Definition allowed_settings : list string :=
  ["default_country"; "default_language"; "max_articles"; "api_timeout"].

(** [update_config(setting, value)] of the earlier server, with the
    sending of what it returns: the allow-list is checked in the body, and
    both numeric settings share one error message. *)
Definition update_config (config : gmap string json) (setting value : string)
  : http config_response * gmap string json :=
  if negb (existsb (String.eqb setting) allowed_settings) then
    (HTTPException 400 ("Invalid setting: " +:+ setting), config)
  else
    let converted : option json :=
      if existsb (String.eqb setting) ["max_articles"; "api_timeout"] then
        (if String.eqb setting "api_timeout" then float_of_str value
         else int_value value)
      else Some (JString value) in
    match converted with
    | Some v =>
        send_response
          (Answer (mkConfigResponse setting (config !! setting) v),
           <[setting := v]> config)
    | None =>
        (HTTPException 400
           ("Invalid value for " +:+ setting +:+ ": must be numeric"), config)
    end.

Section Events.

Variable strptime_date : string -> option Z.
Variable strptime_time : string -> bool.

(** [add_event(title, date, description, time, location)] of the earlier
    server: the date must parse, and so must every time that is not
    empty. *)
Definition add_event (events : list event) (now : clock) (e : EventCreate)
  : http event * list event :=
  match strptime_date (ec_date e) with
  | None => (HTTPException 400 "Invalid date format. Use YYYY-MM-DD", events)
  | Some _ =>
      if negb (String.eqb (ec_time e) EmptyString)
         && negb (strptime_time (ec_time e))
      then (HTTPException 400 "Invalid time format. Use HH:MM", events)
      else
        let ev := new_event events now e in
        (Answer ev, events ++ [ev])
  end.

End Events.

End McpServer.

(* ===================================================================== *)
(** ** Sample inputs                                                       *)
(* ===================================================================== *)

Module Samples.
Import Json Chainlint.

(** A reply without any JSON object. *)
Definition plain_reply : string := "Hello! How can I help you today?".

(** A reply whose JSON object has a trailing comma. *)
Definition malformed_reply : string :=
  dq "Here you go: {'action': 'use_tool', 'tool': 'get_events', 'arguments': {},}".

(** A reply whose JSON object decodes but has no [action]. *)
Definition fieldless_reply : string := dq "The result is {'status': 'ok'}".

(** A well-formed tool call. *)
Definition embedded_call : string :=
  dq "{'action': 'use_tool', 'tool': 'get_events', 'arguments': {'days_ahead': 7}}".

Definition embedded_call_value : json :=
  JObject [("action", JString "use_tool"); ("tool", JString "get_events");
           ("arguments", JObject [("days_ahead", JInt 7)])].

(** The tool call followed by prose that contains braces. *)
Definition reply_with_later_braces : string :=
  "Sure. " +:+ embedded_call +:+ " Tell me if {this} helps.".

(** The tool call between prose without braces. *)
Definition reply_in_prose : string :=
  "Sure, let me look. " +:+ embedded_call +:+ " One moment.".

(** A decoded tool call whose [arguments] is a list. *)
Definition list_arguments : json := JArray [JInt 1].
Definition call_with_list_arguments : json :=
  JObject [("action", JString "use_tool"); ("tool", JString "get_events");
           ("arguments", list_arguments)].

(** Two tool calls in one reply. *)
Definition reply_with_two_calls : string :=
  embedded_call +:+ " and then " +:+ embedded_call.

(** A decoded tool call without [arguments]. *)
Definition call_without_arguments : list (string * json) :=
  [("action", JString "use_tool"); ("tool", JString "get_events")].

(** A client that has not connected yet and a server that is down. *)
Definition fresh_client : client := mkClient false [].
Definition server_down (r : request) : http_result := Failure "connection refused".

(** Feed targets: a public one, loopback addresses other than 127.0.0.1,
    and targets the guard knows. *)
Definition public_feed : string := "https://feeds.example.com/a.xml".
Definition loopback_feed : string := "http://127.0.0.2/feed.xml".
Definition loopback6_feed : string := "http://[::1]/feed.xml".
Definition localhost_feed : string := "http://127.0.0.1/x".
Definition file_target : string := "file:///etc/passwd".

(** A feed parser and a transport for the examples: every text is a feed
    with one entry; requests at even positions succeed, the others time
    out. *)
Definition one_entry_feed (text : string) : Utils.raw_feed + string :=
  inl (Utils.mkRawFeed (Some text) None
         [Utils.mkRawEntry (Some "first") None None None None]).
Definition flaky_client (i : nat) (url : string) : Utils.http_reply :=
  if Nat.even i then Utils.HttpText url else Utils.HttpRaise "timed out".

(** Three targets, the second one refused by the guard. *)
Definition three_feeds : list string :=
  [public_feed; localhost_feed; "https://feeds.example.com/b.xml"].

(** A calendar with two events on the same day, the later one stored
    first, and a request for a third. *)
Definition standup : Server.event :=
  Server.mkEvent "event_1_1740000000" "Stand-up" EmptyString "2025-03-01" "09:00" EmptyString
                 "2025-02-19T21:20:00".
Definition breakfast : Server.event :=
  Server.mkEvent "event_2_1740000100" "Breakfast" EmptyString "2025-03-01" "08:30" EmptyString
                 "2025-02-19T21:21:40".
Definition calendar : list Server.event := [standup; breakfast].
Definition lunch : Server.EventCreate :=
  Server.mkEventCreate "Lunch" "2025-03-01" EmptyString "12:15" "Canteen".
Definition noon : Server.clock := Server.mkClock 1740000200 "2025-02-19T21:23:20".

(** The configuration of [get_default_config]. *)
Definition default_config : gmap string json :=
  list_to_map
    [("default_country", JString "us");
     ("default_language", JString "en");
     ("max_articles", JInt 20);
     ("default_rss_feeds", JArray [JString "https://feeds.bbci.co.uk/news/rss.xml";
                                   JString "https://rss.cnn.com/rss/edition.rss"]);
     ("api_timeout", JFloat false 300 (-1));
     ("max_concurrent_requests", JInt 5)].

(** A request whose time is blank, and a transport that times out. *)
Definition blank_time_event : Server.EventCreate :=
  Server.mkEventCreate "Walk" "2025-03-02" EmptyString "  " EmptyString.

(** A third event of that day at the time of the stand-up, stored
    last. *)
Definition retro : Server.event :=
  Server.mkEvent "event_3_1740000300" "Retrospective" EmptyString "2025-03-01" "09:00"
                 EmptyString "2025-02-19T21:25:00".
Definition busy_calendar : list Server.event := [standup; breakfast; retro].

(** A feed parser that finds seven entries in every text. *)
Definition seven_entry_feed (text : string) : Utils.raw_feed + string :=
  inl (Utils.mkRawFeed (Some text) None
         (replicate 7 (Utils.mkRawEntry (Some "entry") None None None None))).

Definition slow_client (url : string) : SingleFeed.get_outcome :=
  SingleFeed.TimedOut "timed out".
Definition echo_client (url : string) : SingleFeed.get_outcome :=
  SingleFeed.Got url.

End Samples.

(* ===================================================================== *)
(** ** The decoder always answers                                          *)
(* ===================================================================== *)

Module JsonProofs.
Import Json.

Local Notation len := String.length (only parsing).

Lemma skip_ws_length (s : string) : (len (skip_ws s) <= len s)%nat.
Proof.
  induction s as [|c r IH]; simpl; [lia|].
  destruct (is_ws c); simpl; lia.
Qed.

Lemma strip_prefix_length (p s r : string) :
  strip_prefix p s = Some r -> len s = (len p + len r)%nat.
Proof.
  revert s. induction p as [|a p IH]; intros [|b s]; simpl; try discriminate.
  - intros [= <-]. reflexivity.
  - intros [= <-]. reflexivity.
  - destruct (Ascii.eqb a b); [|discriminate]. intros H. rewrite (IH _ H). reflexivity.
Qed.

Lemma scan_literal_length (kw : string) (v w : json) (s r : string) :
  scan_literal kw v s = Parsed w r -> len s = (len kw + len r)%nat.
Proof.
  unfold scan_literal. destruct (strip_prefix kw s) eqn:E; [|discriminate].
  intros [= _ <-]. apply strip_prefix_length, E.
Qed.

Lemma scan_literal_fuel (kw : string) (v : json) (s : string) :
  scan_literal kw v s <> NoFuel.
Proof. unfold scan_literal. destruct (strip_prefix kw s); discriminate. Qed.

Lemma take_digits_length (s : string) (acc n : Z) (v m : Z) (r : string) :
  take_digits s acc n = (v, m, r) -> (len r <= len s)%nat.
Proof.
  revert acc n. induction s as [|c s IH]; intros acc n; simpl.
  - intros [= _ _ <-]. simpl. lia.
  - destruct (Py.is_digit c).
    + intros H. apply IH in H. lia.
    + intros [= _ _ <-]. simpl. lia.
Qed.

Lemma scan_exp_length (s : string) (v : Z) (r : string) :
  scan_exp s = Some (v, r) -> (len r <= len s)%nat.
Proof.
  unfold scan_exp. destruct s as [|c s]; [discriminate|].
  destruct (_ || _); [|discriminate].
  destruct (match s with
            | String "-" r1 => (-1, r1)
            | String "+" r1 => (1, r1)
            | _ => (1, s)
            end) as [sign r1] eqn:E.
  assert (Hr1 : (len r1 <= len s)%nat).
  { destruct s as [|c' s']; [injection E as _ <-; simpl; lia|].
    destruct c' as [[] [] [] [] [] [] [] []]; injection E as _ <-; simpl; lia. }
  destruct (take_digits r1 0 0) as [[v' n] r2] eqn:Et.
  apply take_digits_length in Et.
  destruct (0 <? n); [|discriminate]. intros [= _ <-]. simpl. lia.
Qed.

Lemma scan_frac_length (s : string) (v n : Z) (r : string) :
  scan_frac s = Some (v, n, r) -> (len r <= len s)%nat.
Proof.
  unfold scan_frac. destruct s as [|c s]; [discriminate|].
  destruct c as [[] [] [] [] [] [] [] []]; try discriminate.
  destruct (take_digits s 0 0) as [[v' n'] r'] eqn:Et.
  apply take_digits_length in Et.
  destruct (0 <? n'); [|discriminate]. intros [= _ _ <-]. simpl. lia.
Qed.

Lemma scan_intpart_length (s : string) (v : Z) (r : string) :
  scan_intpart s = Some (v, r) -> (len r < len s)%nat.
Proof.
  unfold scan_intpart. destruct s as [|c s]; [discriminate|].
  destruct (Ascii.eqb c "0"); [intros [= _ <-]; simpl; lia|].
  destruct (Py.is_digit c) eqn:Ed; [|discriminate].
  simpl. rewrite Ed.
  destruct (take_digits s _ _) as [[v' n'] r'] eqn:Et.
  apply take_digits_length in Et. intros [= _ <-]. simpl. lia.
Qed.

Lemma scan_number_length (s : string) (v : json) (r : string) :
  scan_number s = Some (v, r) -> (len r < len s)%nat.
Proof.
  unfold scan_number.
  destruct (match s with
            | String "-" r => (true, r)
            | _ => (false, s)
            end) as [neg s1] eqn:E.
  assert (Hs1 : (len s1 <= len s)%nat).
  { destruct s as [|c' s']; [injection E as _ <-; simpl; lia|].
    destruct c' as [[] [] [] [] [] [] [] []]; injection E as _ <-; simpl; lia. }
  destruct (scan_intpart s1) as [[ip r0]|] eqn:Ei; [|discriminate].
  apply scan_intpart_length in Ei.
  destruct (scan_frac r0) as [[[fv fl] r1]|] eqn:Ef.
  - apply scan_frac_length in Ef.
    destruct (scan_exp r1) as [[ex r2]|] eqn:Ee.
    + apply scan_exp_length in Ee. intros [= _ <-]. lia.
    + intros [= _ <-]. lia.
  - destruct (scan_exp r0) as [[ex r2]|] eqn:Ee.
    + apply scan_exp_length in Ee. intros [= _ <-]. lia.
    + intros [= _ <-]. lia.
Qed.

Lemma decode_uXXXX_length (s : string) (u : Z) (r : string) :
  decode_uXXXX s = Some (u, r) -> (len r < len s)%nat.
Proof.
  unfold decode_uXXXX.
  destruct s as [|a [|b [|c [|d s]]]]; try discriminate.
  destruct (hex_val a), (hex_val b), (hex_val c), (hex_val d); try discriminate.
  intros [= _ <-]. simpl. lia.
Qed.

Lemma scan_unicode_length (s : string) (u : Z) (r : string) :
  scan_unicode s = Some (u, r) -> (len r < len s)%nat.
Proof.
  unfold scan_unicode.
  destruct (decode_uXXXX s) as [[uni r0]|] eqn:E; [|discriminate].
  apply decode_uXXXX_length in E.
  destruct (_ && _); [|intros [= _ <-]; exact E].
  destruct r0 as [|c1 [|c2 r']]; try (intros [= _ <-]; exact E).
  destruct (_ && _); [|intros [= _ <-]; exact E].
  destruct (decode_uXXXX r') as [[uni2 r2]|] eqn:E2; [|discriminate].
  apply decode_uXXXX_length in E2.
  destruct (_ && _); intros [= _ <-]; simpl in *; lia.
Qed.

Lemma scan_map_parsed {A B} (f : A -> B) (x : scan A) (b : B) (r : string) :
  scan_map f x = Parsed b r -> exists a, x = Parsed a r.
Proof. destruct x; simpl; try discriminate. intros [= _ <-]. eauto. Qed.

Lemma scan_map_fuel {A B} (f : A -> B) (x : scan A) :
  scan_map f x = NoFuel -> x = NoFuel.
Proof. destruct x; simpl; try discriminate. reflexivity. Qed.

Lemma scanstring_ok (fuel : nat) (s : string) :
  (len s < fuel)%nat ->
  scanstring fuel s <> NoFuel /\
  forall k r, scanstring fuel s = Parsed k r -> (len r < len s)%nat.
Proof.
  revert s. induction fuel as [|fuel IH]; intros s Hf; [lia|].
  simpl. destruct s as [|c r]; [split; [discriminate|discriminate]|].
  simpl in Hf.
  destruct (Ascii.eqb c dquote).
  { split; [discriminate|]. intros k r' [= _ <-]. simpl. lia. }
  destruct (Ascii.eqb c backslash).
  - destruct r as [|esc r1]; [split; discriminate|]. simpl in Hf.
    destruct (Ascii.eqb esc "u").
    + destruct (scan_unicode r1) as [[uni r2]|] eqn:E; [|split; discriminate].
      apply scan_unicode_length in E.
      destruct (IH r2 ltac:(lia)) as [H1 H2]. split.
      * intros H. apply scan_map_fuel in H. contradiction.
      * intros k r' H. apply scan_map_parsed in H. destruct H as [a H].
        apply H2 in H. simpl. lia.
    + destruct (unescape esc); [|split; discriminate].
      destruct (IH r1 ltac:(lia)) as [H1 H2]. split.
      * intros H. apply scan_map_fuel in H. contradiction.
      * intros k r' H. apply scan_map_parsed in H. destruct H as [a' H].
        apply H2 in H. simpl. lia.
  - destruct (_ <? _); [split; discriminate|].
    destruct (IH r ltac:(lia)) as [H1 H2]. split.
    + intros H. apply scan_map_fuel in H. contradiction.
    + intros k r' H. apply scan_map_parsed in H. destruct H as [a' H].
      apply H2 in H. simpl. lia.
Qed.

Local Arguments scanstring : simpl never.
Local Arguments scan_number : simpl never.
Local Arguments skip_ws : simpl never.

Ltac literal_case :=
  split; [apply scan_literal_fuel|];
  let H := fresh in
  intros ? ? H; apply scan_literal_length in H; simpl in H |- *; lia.

Lemma once_step (f : nat) : members_ok f -> items_ok f -> once_ok (S f).
Proof.
  intros Hm Hi s Hf. simpl.
  destruct s as [|c r]; [split; discriminate|]. simpl in Hf.
  destruct (Ascii.eqb c dquote).
  { destruct (scanstring_ok (S (len r)) r ltac:(lia)) as [H1 H2]. split.
    - intros H. apply scan_map_fuel in H. contradiction.
    - intros v r' H. apply scan_map_parsed in H. destruct H as [a H].
      apply H2 in H. simpl. lia. }
  destruct (Ascii.eqb c "{").
  { pose proof (skip_ws_length r) as Hw.
    destruct (skip_ws r) as [|c1 r1]; [split; discriminate|]. simpl in Hw.
    destruct (Ascii.eqb c1 "}").
    { split; [discriminate|]. intros v r' [= _ <-]. simpl. lia. }
    destruct (Ascii.eqb c1 dquote); [|split; discriminate].
    destruct (Hm r1 [] ltac:(lia)) as [H1 H2]. split; [exact H1|].
    intros v r' H. apply H2 in H. simpl. lia. }
  destruct (Ascii.eqb c "[").
  { pose proof (skip_ws_length r) as Hw.
    destruct (skip_ws r) as [|c1 r1]; [split; discriminate|]. simpl in Hw.
    destruct (Ascii.eqb c1 "]").
    { split; [discriminate|]. intros v r' [= _ <-]. simpl. lia. }
    destruct (Hi (String c1 r1) [] ltac:(simpl; lia)) as [H1 H2].
    split; [exact H1|].
    intros v r' H. apply H2 in H. simpl in H |- *. lia. }
  destruct (Ascii.eqb c "n"); [literal_case|].
  destruct (Ascii.eqb c "t"); [literal_case|].
  destruct (Ascii.eqb c "f"); [literal_case|].
  destruct (scan_number (String c r)) as [[v0 r0]|] eqn:En.
  { apply scan_number_length in En. split; [discriminate|].
    intros v r' [= _ <-]. exact En. }
  destruct (Ascii.eqb c "N"); [literal_case|].
  destruct (Ascii.eqb c "I"); [literal_case|].
  destruct (Ascii.eqb c "-"); [literal_case|].
  split; discriminate.
Qed.

Lemma members_step (f : nat) : once_ok f -> members_ok f -> members_ok (S f).
Proof.
  intros Ho Hm s acc Hf. simpl.
  destruct (scanstring_ok (S (len s)) s ltac:(lia)) as [K1 K2].
  destruct (scanstring (S (len s)) s) as [key r| |] eqn:Ek;
    [|split; discriminate|contradiction].
  specialize (K2 key r eq_refl).
  pose proof (skip_ws_length r) as Hw.
  destruct (skip_ws r) as [|c1 r1]; [split; discriminate|]. simpl in Hw.
  destruct (negb (Ascii.eqb c1 ":")); [split; discriminate|].
  pose proof (skip_ws_length r1) as Hw1.
  destruct (Ho (skip_ws r1) ltac:(lia)) as [H1 H2].
  destruct (scan_once f (skip_ws r1)) as [v r2| |] eqn:Ev;
    [|split; discriminate|contradiction].
  specialize (H2 v r2 eq_refl).
  pose proof (skip_ws_length r2) as Hw2.
  destruct (skip_ws r2) as [|c3 r3]; [split; discriminate|]. simpl in Hw2.
  destruct (Ascii.eqb c3 "}").
  { split; [discriminate|]. intros v' r' [= _ <-]. lia. }
  destruct (Ascii.eqb c3 ","); [|split; discriminate].
  pose proof (skip_ws_length r3) as Hw3.
  destruct (skip_ws r3) as [|c4 r4]; [split; discriminate|]. simpl in Hw3.
  destruct (Ascii.eqb c4 dquote); [|split; discriminate].
  destruct (Hm r4 (dict_set key v acc) ltac:(lia)) as [G1 G2].
  split; [exact G1|]. intros v' r' H. apply G2 in H. lia.
Qed.

Lemma items_step (f : nat) : once_ok f -> items_ok f -> items_ok (S f).
Proof.
  intros Ho Hi s acc Hf. simpl.
  destruct (Ho s ltac:(lia)) as [H1 H2].
  destruct (scan_once f s) as [v r| |] eqn:Ev;
    [|split; discriminate|contradiction].
  specialize (H2 v r eq_refl).
  pose proof (skip_ws_length r) as Hw.
  destruct (skip_ws r) as [|c1 r1]; [split; discriminate|]. simpl in Hw.
  destruct (Ascii.eqb c1 "]").
  { split; [discriminate|]. intros v' r' [= _ <-]. lia. }
  destruct (Ascii.eqb c1 ","); [|split; discriminate].
  pose proof (skip_ws_length r1) as Hw1.
  destruct (Hi (skip_ws r1) (acc ++ [v]) ltac:(lia)) as [G1 G2].
  split; [exact G1|]. intros v' r' H. apply G2 in H. lia.
Qed.

Lemma scan_ok (f : nat) : once_ok f /\ members_ok f /\ items_ok f.
Proof.
  induction f as [|f (Ho & Hm & Hi)].
  - repeat split; intros; lia.
  - split; [apply once_step; assumption|].
    split; [apply members_step; assumption|apply items_step; assumption].
Qed.

(** The budget [decode] gives is never used up: when [loads] answers
    [None], the text is not a JSON document. *)
Theorem decode_total (s : string) : decode s <> NoFuel.
Proof.
  unfold decode. pose proof (skip_ws_length s) as Hw.
  destruct (scan_ok (S (2 * len s))) as (Ho & _ & _).
  destruct (Ho (skip_ws s) ltac:(lia)) as [H _].
  destruct (scan_once _ _) as [v r| |]; [|discriminate|contradiction].
  destruct (skip_ws r); discriminate.
Qed.

End JsonProofs.


(* ===================================================================== *)
(** ** Properties of chainlint.py                                          *)
(* ===================================================================== *)

Module ChainlintProofs.
Import Json Chainlint Samples.

(** No opening brace, no match. *)
Lemma search_braces_no_open (text : string) :
  Py.contains_char "{" text = false -> search_braces text = None.
Proof.
  unfold search_braces.
  induction text as [|c r IH]; simpl; [reflexivity|].
  destruct (Ascii.eqb c "{"); [discriminate|]. exact IH.
Qed.

(** Whenever [extract_json_from_text] gives [None], the handler subscripts
    [None] and raises [TypeError]. *)
Lemma main_raises_on_none (text : string) :
  extract_json_from_text text = JNull ->
  main (text_response text) = Raise TypeError.
Proof.
  intros H. unfold main, text_response. simpl. rewrite H. reflexivity.
Qed.

(** A text without an opening brace makes the handler raise. *)
Lemma handler_raises_without_braces (text : string) :
  Py.contains_char "{" text = false ->
  main (text_response text) = Raise TypeError.
Proof.
  intros H. apply main_raises_on_none.
  unfold extract_json_from_text. rewrite (search_braces_no_open _ H). reflexivity.
Qed.

(** C1 (the code departs from the claim).  The claim: a reply without a
    JSON object, with one that fails to decode, or with one lacking the
    action fields is handled without raising and becomes a [TextAction]
    with the original text.  The code: [extract_json_from_text] gives
    [None] in the first two cases and the handler subscripts it,
    [TypeError]; in the third the handler reads the missing [action] key,
    [KeyError]. *)
Theorem handler_raises_on_unparsed_replies :
  handle_reply plain_reply = Raise TypeError /\
  handle_reply malformed_reply = Raise TypeError /\
  handle_reply fieldless_reply = Raise (KeyError "action").
Proof. repeat split; vm_compute; reflexivity. Qed.

(** The span the regular expression takes runs to the last closing brace
    of the text. *)
Lemma upto_last_close_none (t : string) :
  Py.contains_char "}" t = false -> upto_last_close t = None.
Proof.
  induction t as [|c r IH]; simpl; [reflexivity|].
  destruct (Ascii.eqb c "}"); [discriminate|].
  intros H. rewrite (IH H). reflexivity.
Qed.

Lemma upto_last_close_app (s t : string) :
  Py.contains_char "}" t = false ->
  upto_last_close (s +:+ t) = upto_last_close s.
Proof.
  intros Ht. induction s as [|c r IH]; simpl.
  - apply upto_last_close_none, Ht.
  - rewrite IH. reflexivity.
Qed.

Lemma upto_last_close_whole (s : string) :
  upto_last_close (s +:+ "}") = Some (s +:+ "}").
Proof.
  induction s as [|c r IH]; simpl; [reflexivity|]. rewrite IH. reflexivity.
Qed.

(** Where the extraction does find the embedded object: no opening brace
    before it and no closing brace after it. *)
Lemma search_braces_embedded (before body after : string) :
  Py.contains_char "{" before = false ->
  Py.contains_char "}" after = false ->
  search_braces (before +:+ String "{" (body +:+ "}") +:+ after)
  = Some (String "{" (body +:+ "}")).
Proof.
  intros Hb Ha. unfold search_braces.
  induction before as [|c r IH].
  - change (from_open (EmptyString +:+ String "{" (body +:+ "}") +:+ after))
      with (Some (String "{" ((body +:+ "}") +:+ after))).
    cbn [upto_last_close].
    rewrite (upto_last_close_app _ _ Ha), upto_last_close_whole. reflexivity.
  - change (from_open (String c r +:+ String "{" (body +:+ "}") +:+ after))
      with (if Ascii.eqb c "{"
            then Some (String c (r +:+ String "{" (body +:+ "}") +:+ after))
            else from_open (r +:+ String "{" (body +:+ "}") +:+ after)).
    simpl in Hb. destruct (Ascii.eqb c "{"); [discriminate|]. exact (IH Hb).
Qed.

(** C2 (the code departs from the claim and from its own docstring, which
    promises the first JSON object of the text).  The claim: a well-formed
    tool call embedded anywhere in prose is extracted, by finding the first
    balanced object.  The code: the regular expression spans from the first
    opening brace to the last closing brace of the text, so prose with a
    brace after the object is decoded along with it, decoding fails, and the
    handler raises. *)
Theorem extraction_spans_to_last_brace :
  Json.loads embedded_call = Some embedded_call_value /\
  search_braces reply_with_later_braces
    = Some (embedded_call +:+ " Tell me if {this}") /\
  extract_json_from_text reply_with_later_braces = JNull /\
  handle_reply reply_with_later_braces = Raise TypeError.
Proof. repeat split; vm_compute; reflexivity. Qed.

(** Two objects in one reply are taken as one span, which does not
    decode. *)
Example two_calls_are_one_span :
  extract_json_from_text reply_with_two_calls = JNull /\
  Json.decode reply_with_two_calls = Json.Invalid.
Proof. split; vm_compute; reflexivity. Qed.

(** Between prose without braces the same tool call is found. *)
Example extraction_in_plain_prose :
  handle_reply reply_in_prose
  = Ok (ToolAction (JString "get_events") (JObject [("days_ahead", JInt 7)])).
Proof. vm_compute. reflexivity. Qed.

(** A reply that is the tool call and nothing else is recognised by
    [generate_response], whose dict has no [content]: the handler raises
    before it extracts anything. *)
Example exact_tool_call_raises :
  handle_reply embedded_call = Raise (KeyError "content").
Proof. vm_compute. reflexivity. Qed.

(** C3, as stated, fails: an [arguments] field that is a list is handed on
    as that list, not as an empty mapping. *)
Lemma list_arguments_are_kept :
  ~ (getitem call_with_list_arguments "action" = Ok (JString "use_tool") ->
     getitem call_with_list_arguments "arguments" = Ok list_arguments ->
     is_dict list_arguments = false ->
     tool_call_arguments call_with_list_arguments = Some (JObject [])).
Proof.
  intros H. specialize (H eq_refl eq_refl eq_refl).
  vm_compute in H. discriminate.
Qed.

(** C3, amended.  For a decoded reply object whose action is [use_tool],
    [generate_response] builds a tool call and raises nothing; a missing
    [arguments] field becomes the empty mapping, and a field that is present
    is handed on as it is, whether or not it is an object. *)
Theorem missing_arguments_default_to_empty (d : list (string * json)) :
  eq_str (default JNull (dict_get "action" d)) "use_tool" = true ->
  (exists r, tool_call_of_parsed (JObject d) = Some r) /\
  (dict_get "arguments" d = None ->
   tool_call_arguments (JObject d) = Some (JObject [])) /\
  (forall a, dict_get "arguments" d = Some a ->
   tool_call_arguments (JObject d) = Some a).
Proof.
  intros Hact. unfold tool_call_arguments, tool_call_of_parsed. rewrite Hact.
  split; [eexists; reflexivity|].
  split; [intros H | intros a H]; rewrite H; reflexivity.
Qed.

Lemma missing_arguments_default_to_empty_witness :
  eq_str (default JNull (dict_get "action" call_without_arguments)) "use_tool"
  = true /\
  tool_call_arguments (JObject call_without_arguments) = Some (JObject []).
Proof.
  split; [reflexivity|].
  destruct (missing_arguments_default_to_empty call_without_arguments eq_refl)
    as (_ & H & _).
  apply H. reflexivity.
Defined.

(** In the handler the same missing field is read with a subscript and
    raises. *)
Example handler_raises_on_missing_arguments :
  handle_reply (dq "Calling {'action': 'use_tool', 'tool': 'get_events'}")
  = Raise (KeyError "arguments").
Proof. vm_compute. reflexivity. Qed.

(** A name outside the catalog fails every comparison of [route]. *)
Lemma route_unknown (tool_name : string) (arguments : json) :
  ~ In tool_name catalog ->
  route tool_name arguments = Return (error_result ("Unknown tool: " +:+ tool_name)).
Proof.
  intros H. unfold route.
  repeat match goal with
  | |- context [String.eqb tool_name ?n] =>
      destruct (String.eqb_spec tool_name n) as [->|_];
      [exfalso; apply H; unfold catalog; simpl; tauto|]
  end.
  reflexivity.
Qed.

(** Connecting asks for the resources and nothing else. *)
Lemma connect_trace (backend : request -> http_result) (c : client) :
  List.filter is_backend_call (snd (connect backend c)) = [].
Proof. reflexivity. Qed.

(** When [route] returns or raises without a request, [call_tool] makes
    none: at most the listing of resources of a client that was not yet
    connected. *)
Lemma call_tool_no_request (backend : request -> http_result) (c : client)
    (tool_name : string) (arguments result : json) :
  route tool_name arguments = Return result ->
  let '(res, _, trace) := call_tool backend c tool_name arguments in
  res = result /\
  trace = (if connected c then [] else [GetResources]) /\
  List.filter is_backend_call trace = [].
Proof.
  intros H. unfold call_tool. rewrite H.
  destruct (connected c); simpl; auto.
Qed.

(** C7.  A tool name outside the catalog gives the error result
    [Unknown tool: ...], and [delete_event] without an [event_id] argument
    gives the error result [event_id is required]; in both cases no request
    for a tool's backend operation is made (the only request [call_tool]
    can make then is the listing of resources of a client that was not yet
    connected). *)
Theorem call_tool_rejects_without_backend_call
    (backend : request -> http_result) (c : client)
    (tool_name : string) (arguments : json) (d : list (string * json)) :
  (~ In tool_name catalog ->
   let '(res, _, trace) := call_tool backend c tool_name arguments in
   res = error_result ("Unknown tool: " +:+ tool_name) /\
   trace = (if connected c then [] else [GetResources]) /\
   List.filter is_backend_call trace = []) /\
  (dict_get "event_id" d = None ->
   let '(res, _, trace) := call_tool backend c "delete_event" (JObject d) in
   res = error_result "event_id is required" /\
   trace = (if connected c then [] else [GetResources]) /\
   List.filter is_backend_call trace = []).
Proof.
  split; intros H.
  - apply call_tool_no_request. apply route_unknown. exact H.
  - apply call_tool_no_request. unfold route. simpl. rewrite H. reflexivity.
Qed.

Lemma call_tool_rejects_without_backend_call_witness :
  (let '(res, _, trace) :=
     call_tool server_down fresh_client "send_email" (JObject []) in
   res = error_result "Unknown tool: send_email" /\
   trace = [GetResources] /\
   List.filter is_backend_call trace = []) /\
  (let '(res, _, trace) :=
     call_tool server_down fresh_client "delete_event"
               (JObject [("id", JString "event_1")]) in
   res = error_result "event_id is required" /\
   trace = [GetResources] /\
   List.filter is_backend_call trace = []).
Proof.
  split.
  - apply (call_tool_rejects_without_backend_call server_down fresh_client
             "send_email" (JObject []) []).
    unfold catalog. simpl. intros H.
    repeat (destruct H as [H|H]; [discriminate|]). exact H.
  - apply (call_tool_rejects_without_backend_call server_down fresh_client
             "send_email" JNull [("id", JString "event_1")]).
    reflexivity.
Defined.

(** With arguments that are not a dict, [delete_event] fails on
    [arguments.get] inside the [try]: an error result, and again no
    request. *)
Example delete_event_with_list_arguments :
  call_tool server_down (mkClient true tool_list) "delete_event" (JArray [])
  = (error_result "'list' object has no attribute 'get'",
     mkClient true tool_list, []).
Proof. reflexivity. Qed.

End ChainlintProofs.

(* ===================================================================== *)
(** ** Properties of lib/utils.py                                          *)
(* ===================================================================== *)

Module UtilsProofs.
Import Utils Samples.

(** A target the guard refuses is answered with an error entry and the
    network is not touched. *)
Lemma refused_without_network (parse : string -> raw_feed + string)
    (session : string -> http_reply) (feed_url : string) (max_entries : Z) :
  validate_url feed_url = false ->
  fetch_single_rss_feed parse session feed_url max_entries
  = (FeedError feed_url "Invalid or unsafe URL", []).
Proof. intros H. unfold fetch_single_rss_feed. rewrite H. reflexivity. Qed.

(** Every scheme other than [http] and [https] is refused. *)
Lemma other_schemes_refused (url : string) (parsed : parsed_url) :
  urlparse url = Some parsed ->
  scheme parsed <> "http" -> scheme parsed <> "https" ->
  validate_url url = false.
Proof.
  intros Hp H1 H2. unfold validate_url, validate_parsed. rewrite Hp. simpl.
  destruct (String.eqb_spec (scheme parsed) "http"); [contradiction|].
  destruct (String.eqb_spec (scheme parsed) "https"); [contradiction|].
  reflexivity.
Qed.

(** So are the three host names and the two prefixes the guard lists. *)
Lemma listed_hosts_refused (url : string) (parsed : parsed_url) (h : string) :
  urlparse url = Some parsed ->
  hostname parsed = Some h ->
  In h ["localhost"; "127.0.0.1"; "0.0.0.0"]
  \/ Py.startswith "192.168." h = true \/ Py.startswith "10." h = true ->
  validate_url url = false.
Proof.
  intros Hp Hh H. unfold validate_url, validate_parsed. rewrite Hp, Hh.
  destruct (negb _); [reflexivity|].
  destruct H as [H|[H|H]].
  - replace (existsb (String.eqb h) _) with true; [reflexivity|].
    symmetry. apply existsb_exists. exists h. split; [exact H|].
    apply String.eqb_refl.
  - destruct (existsb _ _); [reflexivity|].
    unfold has_prefix. rewrite H.
    destruct h; [discriminate|]. reflexivity.
  - destruct (existsb _ _); [reflexivity|].
    destruct (has_prefix "192.168." _); [reflexivity|].
    unfold has_prefix. rewrite H.
    destruct h; [discriminate|]. reflexivity.
Qed.

Example known_targets_refused :
  validate_url localhost_feed = false /\ validate_url file_target = false /\
  validate_url "http://LocalHost:8001/resources" = false /\
  validate_url "https://user@192.168.68.110:23232/v1" = false /\
  validate_url "http://10.0.0.7/" = false /\
  validate_url "http://172.16.0.1/" = false /\
  validate_url "http://172.31.255.255/" = false /\
  validate_url public_feed = true /\ validate_url "http://172.32.0.1/" = true.
Proof. repeat split; vm_compute; reflexivity. Qed.

(** C6 (the code departs from the claim and from the docstring of
    [validate_url], which promises to prevent SSRF).  The claim: a target
    whose host lies in the loopback or private ranges is refused before
    dispatch, without network access.  The code lists the loopback host
    [127.0.0.1] only: [127.0.0.2], in the same loopback range, passes the
    guard and is requested; so does the IPv6 loopback address. *)
Theorem loopback_range_is_dispatched
    (parse : string -> raw_feed + string) (session : string -> http_reply) :
  validate_url loopback_feed = true /\
  snd (fetch_single_rss_feed parse session loopback_feed 5) = [loopback_feed] /\
  validate_url loopback6_feed = true /\
  snd (fetch_single_rss_feed parse session loopback6_feed 5) = [loopback6_feed].
Proof. repeat split; vm_compute; reflexivity. Qed.

End UtilsProofs.

(* ===================================================================== *)
(** ** Properties of main_mcp.py                                           *)
(* ===================================================================== *)

Module ServerProofs.
Import Json Server Samples.

(** *** The order of the sort key *)

Lemma ascii_compare_refl (c : ascii) : Ascii.compare c c = Eq.
Proof. unfold Ascii.compare. apply N.compare_refl. Qed.

Lemma compare_refl (a : string) : String.compare a a = Eq.
Proof.
  induction a as [|c r IH]; simpl; [reflexivity|].
  rewrite ascii_compare_refl. exact IH.
Qed.







(** *** The sort *)

Lemma insert_sorted_in (x y : event) (l : list event) :
  In y (insert_sorted x l) <-> x = y \/ In y l.
Proof.
  induction l as [|z l IH]; simpl; [tauto|].
  destruct (key_lt z x); simpl; [rewrite IH|]; tauto.
Qed.

Lemma sort_events_in (y : event) (l : list event) :
  In y (sort_events l) <-> In y l.
Proof.
  induction l as [|x l IH]; simpl; [tauto|].
  rewrite insert_sorted_in, IH. split; intros [H|H]; auto.
Qed.



(** The sort permutes its input. *)
Lemma insert_sorted_perm (x : event) (l : list event) :
  Permutation (x :: l) (insert_sorted x l).
Proof.
  induction l as [|z l IH]; simpl; [reflexivity|].
  destruct (key_lt z x); [|reflexivity].
  rewrite perm_swap. constructor. exact IH.
Qed.

Lemma sort_events_perm (l : list event) : Permutation l (sort_events l).
Proof.
  induction l as [|x l IH]; simpl; [reflexivity|].
  rewrite <- insert_sorted_perm. constructor. exact IH.
Qed.

Lemma key_lt_same_key (a b k : event) :
  same_key k a = true -> same_key k b = true -> key_lt a b = false.
Proof.
  unfold same_key, key_lt, String.ltb. intros Ha Hb.
  apply andb_true_iff in Ha. destruct Ha as [Ha1 Ha2].
  apply andb_true_iff in Hb. destruct Hb as [Hb1 Hb2].
  apply String.eqb_eq in Ha1, Ha2, Hb1, Hb2.
  rewrite <- Ha1, <- Hb1, <- Ha2, <- Hb2, !compare_refl. reflexivity.
Qed.

Lemma insert_sorted_stable (k x : event) (l : list event) :
  List.filter (same_key k) (insert_sorted x l) = List.filter (same_key k) (x :: l).
Proof.
  induction l as [|y l IH]; [reflexivity|].
  cbn [insert_sorted]. destruct (key_lt y x) eqn:E; [|reflexivity].
  cbn [List.filter] in IH |- *. rewrite IH.
  destruct (same_key k x) eqn:Ex, (same_key k y) eqn:Ey; try reflexivity.
  rewrite (key_lt_same_key y x k Ey Ex) in E. discriminate.
Qed.

(** The sort is stable: events with the same key keep the order they were
    stored in. *)
Lemma sort_events_stable (k : event) (l : list event) :
  List.filter (same_key k) (sort_events l) = List.filter (same_key k) l.
Proof.
  induction l as [|x l IH]; [reflexivity|].
  cbn [sort_events]. rewrite insert_sorted_stable.
  cbn [List.filter]. rewrite IH. reflexivity.
Qed.







Section Events.

Variable strptime_date : string -> option Z.
Variable strptime_time : string -> bool.
Variable str_strip : string -> string.

(** [strptime] refuses the empty text. *)
Hypothesis strptime_date_empty : strptime_date EmptyString = None.




End Events.



(** The loop of [delete_event] finds nothing when no stored id matches. *)
Lemma find_event_none (events : list event) (event_id : string) (i : nat) :
  (forall ev, In ev events -> id ev <> event_id) ->
  find_event events event_id i = None.
Proof.
  revert i. induction events as [|ev rest IH]; intros i H; simpl; [reflexivity|].
  destruct (String.eqb_spec (id ev) event_id) as [E|_].
  - exfalso. apply (H ev); [left; reflexivity|exact E].
  - apply IH. intros ev' Hin. apply H. right. exact Hin.
Qed.

(** C8.  When no stored event has the given id, [delete_event] raises the
    404 error [Event not found] and the stored events, hence their number,
    are as before. *)
Theorem delete_event_unknown_id (events : list event) (event_id : string) :
  (forall ev, In ev events -> id ev <> event_id) ->
  delete_event events event_id = (HTTPException 404 "Event not found", events) /\
  length (snd (delete_event events event_id)) = length events.
Proof.
  intros H. unfold delete_event. rewrite (find_event_none _ _ _ H).
  split; reflexivity.
Qed.

Lemma delete_event_unknown_id_witness :
  delete_event calendar "event_9_1740000000"
    = (HTTPException 404 "Event not found", calendar) /\
  length (snd (delete_event calendar "event_9_1740000000")) = length calendar.
Proof.
  apply (delete_event_unknown_id calendar "event_9_1740000000").
  intros ev [<-|[<-|[]]]; discriminate.
Defined.

(** A stored id is found, and the store shrinks by that event. *)
Example delete_event_known_id :
  delete_event calendar "event_1_1740000000" = (Answer standup, [breakfast]).
Proof. reflexivity. Qed.

(** Sending the response does not touch the configuration. *)
Lemma send_response_config (out : http config_response * gmap string json) :
  snd (send_response out) = snd out.
Proof.
  destruct out as [[r| |] config']; simpl; try reflexivity.
  destruct (_ && _); reflexivity.
Qed.

(** C10.  A [POST /config] whose setting is in the allow-list leaves every
    other key of the configuration with the value it had; one whose setting
    is outside the allow-list leaves the configuration as it was. *)
Theorem post_config_frame (config : gmap string json) (u : ConfigUpdate) :
  (In (setting u) allowed_settings ->
   forall k, k <> setting u -> snd (post_config config u) !! k = config !! k) /\
  (~ In (setting u) allowed_settings -> snd (post_config config u) = config).
Proof.
  split.
  - intros _ k Hk. unfold post_config.
    destruct (validate_setting (setting u)); [|reflexivity].
    rewrite send_response_config. unfold update_config.
    repeat match goal with
           | |- context [if ?b then _ else _] => destruct b
           | |- context [match ?o with Some _ => _ | None => _ end] => destruct o
           end; simpl; try reflexivity;
      apply lookup_insert_ne; congruence.
  - intros H. unfold post_config.
    destruct (validate_setting (setting u)) eqn:E; [|reflexivity].
    exfalso. apply H. unfold validate_setting in E.
    apply existsb_exists in E. destruct E as (x & Hx & E).
    apply String.eqb_eq in E. subst x. exact Hx.
Qed.

Lemma post_config_frame_witness :
  snd (post_config default_config (mkConfigUpdate "max_articles" "50"))
    !! "api_timeout" = default_config !! "api_timeout" /\
  snd (post_config default_config (mkConfigUpdate "default_rss_feeds" "x"))
    = default_config.
Proof.
  split.
  - apply (post_config_frame default_config (mkConfigUpdate "max_articles" "50")).
    + simpl. tauto.
    + discriminate.
  - apply (post_config_frame default_config (mkConfigUpdate "default_rss_feeds" "x")).
    simpl. intros H. repeat (destruct H as [H|H]; [discriminate|]). exact H.
Defined.

(** The key itself takes the converted value. *)
Example post_config_sets_key :
  snd (post_config default_config (mkConfigUpdate "max_articles" "50"))
    !! "max_articles" = Some (JInt 50) /\
  fst (post_config default_config (mkConfigUpdate "max_articles" "fifty"))
    = HTTPException 400 "Invalid value for max_articles: must be integer".
Proof. split; vm_compute; reflexivity. Qed.

End ServerProofs.

(* ===================================================================== *)
(** ** Properties of lib/services.py                                       *)
(* ===================================================================== *)

Module ServicesProofs.
Import Utils Services Samples.

Lemma weigh_insert (f : status -> nat) (l : list status) (i : nat) (a b : status) :
  l !! i = Some a ->
  (weigh f (<[i := b]> l) + f a = weigh f l + f b)%nat.
Proof.
  revert i. induction l as [|x l IH]; intros i H; [destruct i; discriminate|].
  destruct i as [|i]; simpl in *.
  - injection H as ->. lia.
  - specialize (IH i H). lia.
Qed.

Lemma weigh_replicate (f : status -> nat) (n : nat) (t : status) :
  weigh f (replicate n t) = (n * f t)%nat.
Proof. induction n as [|n IH]; simpl; [reflexivity|]. rewrite IH. lia. Qed.

Lemma weigh_zero (f : status -> nat) (l : list status) :
  Forall (fun t => f t = 0%nat) l -> weigh f l = 0%nat.
Proof. induction 1 as [|x l Hx _ IH]; simpl; [reflexivity|]. lia. Qed.

Section Run.

Variable feedparser_parse : string -> raw_feed + string.
Variable client : nat -> string -> http_reply.
Variable feed_urls : list string.
Variable cap : nat.

Notation step := (step feedparser_parse client feed_urls).
Notation reachable := (reachable feedparser_parse client feed_urls).
Notation fetch_with_semaphore := (fetch_with_semaphore feedparser_parse client).

Notation inv := (inv feedparser_parse client feed_urls cap).
Notation start := (start feed_urls cap).

Lemma inv_start : inv start.
Proof.
  split; simpl.
  - unfold in_flight. simpl. rewrite weigh_replicate. simpl. lia.
  - intros w. split; [intros []|]. intros H.
    apply lookup_replicate in H. destruct H as [H _]. discriminate.
  - constructor.
  - intros H. contradiction.
  - apply length_replicate.
  - intros i g H. apply lookup_replicate in H. destruct H as [H _]. discriminate.
Qed.

Lemma inv_acquire (i : nat) (s : sched) :
  inv s -> tasks s !! i = Some Created -> inv (acquire i s).
Proof.
  intros [Hs Hq Hn Hf Hl Hd] Hi. unfold acquire.
  pose proof (weigh_insert (fun t => if is_in_flight t then 1 else 0)%nat
                _ i Created InFlight Hi) as W1.
  pose proof (weigh_insert (fun t => if is_in_flight t then 1 else 0)%nat
                _ i Created Waiting Hi) as W2.
  simpl in W1, W2.
  assert (Hlt : (i < length (tasks s))%nat) by (eapply lookup_lt_Some; eassumption).
  destruct (0 <? value s)%nat eqn:Ev; simpl.
  - apply Nat.ltb_lt in Ev. case_bool_decide as Ew; simpl.
    + split; simpl.
      * unfold in_flight in *. simpl. lia.
      * intros w. rewrite Ew. split; [intros []|]. intros H.
        destruct (decide (w = i)) as [->|Hne].
        -- rewrite list_lookup_insert_eq in H by exact Hlt. discriminate.
        -- rewrite list_lookup_insert_ne in H by congruence.
           apply Hq in H. rewrite Ew in H. destruct H.
      * exact Hn.
      * intros H. contradiction.
      * rewrite length_insert. exact Hl.
      * intros j g H. destruct (decide (j = i)) as [->|Hne].
        -- rewrite list_lookup_insert_eq in H by exact Hlt. discriminate.
        -- rewrite list_lookup_insert_ne in H by congruence. apply Hd, H.
    + specialize (Hf Ew). lia.
  - apply Nat.ltb_ge in Ev.
    assert (Hni : ~ In i (waiters s)).
    { intros H. apply Hq in H. congruence. }
    split; simpl.
    + unfold in_flight in *. simpl. lia.
    + intros w. rewrite in_app_iff. simpl. split.
      * intros [H|[<-|[]]].
        -- assert (w <> i) by (intros ->; contradiction).
           rewrite list_lookup_insert_ne by congruence. apply Hq, H.
        -- apply list_lookup_insert_eq. exact Hlt.
      * intros H. destruct (decide (w = i)) as [->|Hne]; [right; left; reflexivity|].
        rewrite list_lookup_insert_ne in H by congruence. left. apply Hq, H.
    + apply NoDup_app. split; [exact Hn|]. split; [|apply NoDup_singleton].
      intros x Hx Hx'. apply list_elem_of_In in Hx.
      apply list_elem_of_singleton in Hx'. subst x. contradiction.
    + intros _. lia.
    + rewrite length_insert. exact Hl.
    + intros j g H. destruct (decide (j = i)) as [->|Hne].
      * rewrite list_lookup_insert_eq in H by exact Hlt. discriminate.
      * rewrite list_lookup_insert_ne in H by congruence. apply Hd, H.
Qed.


Lemma inv_finish (i : nat) (url : string) (s : sched) :
  inv s -> tasks s !! i = Some InFlight -> feed_urls !! i = Some url ->
  inv (finish i (fetch_with_semaphore i url) s).
Proof.
  intros [Hs Hq Hn Hf Hl Hd] Hi Hu. unfold finish, release. simpl.
  set (g := fetch_with_semaphore i url).
  pose proof (weigh_insert (fun t => if is_in_flight t then 1 else 0)%nat
                _ i InFlight (Done g) Hi) as W1.
  simpl in W1.
  assert (Hlt : (i < length (tasks s))%nat) by (eapply lookup_lt_Some; eassumption).
  destruct (waiters s) as [|w ws] eqn:Ew.
  - split; simpl.
    + unfold in_flight in *. simpl. lia.
    + intros w. split; [intros []|]. intros H.
      destruct (decide (w = i)) as [->|Hne].
      * rewrite list_lookup_insert_eq in H by exact Hlt. discriminate.
      * rewrite list_lookup_insert_ne in H by congruence. apply Hq in H. destruct H.
    + constructor.
    + intros H. contradiction.
    + rewrite length_insert. exact Hl.
    + intros j g' H. destruct (decide (j = i)) as [->|Hne].
      * rewrite list_lookup_insert_eq in H by exact Hlt.
        injection H as <-. exists url. split; [exact Hu|reflexivity].
      * rewrite list_lookup_insert_ne in H by congruence. apply Hd, H.
  - assert (Hw : tasks s !! w = Some Waiting) by (apply Hq; left; reflexivity).
    assert (Hwi : w <> i) by congruence.
    assert (Hw' : <[i := Done g]> (tasks s) !! w = Some Waiting)
      by (rewrite list_lookup_insert_ne by congruence; exact Hw).
    pose proof (weigh_insert (fun t => if is_in_flight t then 1 else 0)%nat
                  _ w Waiting InFlight Hw') as W2.
    simpl in W2.
    assert (Hwlt : (w < length (<[i := Done g]> (tasks s)))%nat)
      by (eapply lookup_lt_Some; eassumption).
    apply NoDup_cons in Hn. destruct Hn as [Hnw Hn].
    rewrite list_elem_of_In in Hnw.
    split; simpl.
    + unfold in_flight in *. simpl. lia.
    + intros x. split.
      * intros H. assert (x <> w) by (intros ->; contradiction).
        rewrite list_lookup_insert_ne by congruence.
        assert (Hx : tasks s !! x = Some Waiting) by (apply Hq; right; exact H).
        assert (x <> i) by congruence.
        rewrite list_lookup_insert_ne by congruence. exact Hx.
      * intros H. destruct (decide (x = w)) as [->|Hne].
        -- rewrite list_lookup_insert_eq in H by exact Hwlt. discriminate.
        -- rewrite list_lookup_insert_ne in H by congruence.
           destruct (decide (x = i)) as [->|Hne'].
           ++ rewrite list_lookup_insert_eq in H by exact Hlt. discriminate.
           ++ rewrite list_lookup_insert_ne in H by congruence.
              apply Hq in H. destruct H as [->|H]; [contradiction|exact H].
    + exact Hn.
    + intros _. apply Hf. discriminate.
    + rewrite !length_insert. exact Hl.
    + intros j g' H. destruct (decide (j = w)) as [->|Hne].
      * rewrite list_lookup_insert_eq in H by exact Hwlt. discriminate.
      * rewrite list_lookup_insert_ne in H by congruence.
        destruct (decide (j = i)) as [->|Hne'].
        -- rewrite list_lookup_insert_eq in H by exact Hlt.
           injection H as <-. exists url. split; [exact Hu|reflexivity].
        -- rewrite list_lookup_insert_ne in H by congruence. apply Hd, H.
Qed.

Lemma inv_step (s s' : sched) : inv s -> step s s' -> inv s'.
Proof.
  intros Hi Hs. destruct Hs as [i s Hc _|i url s Hf Hu].
  - apply inv_acquire; assumption.
  - apply inv_finish; assumption.
Qed.

Lemma inv_reachable (s : sched) : reachable start s -> inv s.
Proof.
  induction 1 as [|s s' _ IH Hs]; [apply inv_start|].
  eapply inv_step; eassumption.
Qed.

(** Every step brings the tasks closer to completion. *)
Lemma step_decreases (s s' : sched) :
  inv s -> step s s' ->
  (weigh remaining (tasks s') < weigh remaining (tasks s))%nat.
Proof.
  intros [Hs Hq Hn Hf Hl Hd] Hst. destruct Hst as [i s Hc _|i url s Hi Hu].
  - pose proof (weigh_insert remaining _ i Created InFlight Hc) as W1.
    pose proof (weigh_insert remaining _ i Created Waiting Hc) as W2.
    simpl in W1, W2. unfold acquire.
    destruct (_ && _); simpl; lia.
  - set (g := fetch_with_semaphore i url).
    pose proof (weigh_insert remaining _ i InFlight (Done g) Hi) as W1.
    simpl in W1. unfold finish, release. simpl. fold g.
    destruct (waiters s) as [|w ws] eqn:Ew; simpl; [lia|].
    assert (Hw : tasks s !! w = Some Waiting) by (apply Hq; left; reflexivity).
    assert (Hwi : w <> i) by congruence.
    assert (Hw' : <[i := Done g]> (tasks s) !! w = Some Waiting)
      by (rewrite list_lookup_insert_ne by congruence; exact Hw).
    pose proof (weigh_insert remaining _ w Waiting InFlight Hw') as W2.
    simpl in W2. lia.
Qed.

(** With at least one slot, a call that has not returned can take a
    step. *)
Lemma progress (s : sched) :
  (1 <= cap)%nat -> inv s -> results_of s = None -> exists s', step s s'.
Proof.
  intros Hc Hi Hr.
  destruct (list_find (fun t => is_created t = true) (tasks s)) as [[i t]|] eqn:Ec.
  - apply list_find_Some in Ec. destruct Ec as (Hi' & Ht & Hmin).
    destruct t; try discriminate.
    exists (acquire i s). constructor; [exact Hi'|].
    intros j Hj Hcj. apply (Hmin j Created Hcj Hj). reflexivity.
  - apply list_find_None in Ec.
    destruct (list_find (fun t => is_in_flight t = true) (tasks s)) as [[i t]|] eqn:Ef.
    + apply list_find_Some in Ef. destruct Ef as (Hi' & Ht & _).
      destruct t; try discriminate.
      destruct (lookup_lt_is_Some_2 feed_urls i) as [url Hu].
      { rewrite <- (inv_length _ _ _ _ _ Hi). eapply lookup_lt_Some; eassumption. }
      exists (finish i (fetch_with_semaphore i url) s).
      constructor; assumption.
    + apply list_find_None in Ef. exfalso.
      assert (H0 : in_flight s = 0%nat).
      { apply weigh_zero. eapply Forall_impl; [exact Ef|].
        intros t Ht. simpl in Ht. destruct (is_in_flight t); [congruence|reflexivity]. }
      pose proof (inv_slots _ _ _ _ _ Hi) as Hs.
      assert (Hw : waiters s = []).
      { destruct (waiters s) eqn:E; [reflexivity|].
        assert (value s = 0%nat) by (apply (inv_full _ _ _ _ _ Hi); rewrite E; discriminate).
        lia. }
      assert (is_Some (results_of s)) as [r Hr'].
      { unfold results_of. apply mapM_is_Some. apply Forall_forall. intros t Ht.
        apply list_elem_of_lookup in Ht. destruct Ht as [j Hj].
        rewrite Forall_forall in Ec, Ef.
        assert (Hin : t ∈ tasks s) by (eapply list_elem_of_lookup_2; eassumption).
        specialize (Ec t Hin). specialize (Ef t Hin). simpl in Ec, Ef.
        destruct t; simpl in *; try congruence; [|eexists; reflexivity].
        apply (inv_queue _ _ _ _ _ Hi) in Hj. rewrite Hw in Hj. destruct Hj. }
      congruence.
Qed.

(** So, with at least one slot, the call can always run to its return. *)
Lemma can_return (n : nat) (s : sched) :
  (1 <= cap)%nat -> (weigh remaining (tasks s) <= n)%nat -> reachable start s ->
  exists s', reachable start s' /\ is_Some (returned s').
Proof.
  intros Hc. revert s. induction n as [|n IH]; intros s Hn Hr.
  - destruct (results_of s) as [r|] eqn:E.
    + exists s. split; [exact Hr|]. unfold returned. rewrite E. eexists; reflexivity.
    + destruct (progress s Hc (inv_reachable _ Hr) E) as [s' Hs].
      pose proof (step_decreases _ _ (inv_reachable _ Hr) Hs). lia.
  - destruct (results_of s) as [r|] eqn:E.
    + exists s. split; [exact Hr|]. unfold returned. rewrite E. eexists; reflexivity.
    + destruct (progress s Hc (inv_reachable _ Hr) E) as [s' Hs].
      pose proof (step_decreases _ _ (inv_reachable _ Hr) Hs).
      apply (IH s'); [lia|]. econstructor; eassumption.
Qed.

(** What a returned call holds at each position. *)
Lemma returned_entries (s : sched) (agg : aggregate) :
  inv s -> returned s = Some agg ->
  length (feeds agg) = length feed_urls /\
  total_feeds agg = length feed_urls /\
  forall i url, feed_urls !! i = Some url ->
    feeds agg !! i = Some (entry_of feedparser_parse client i url).
Proof.
  intros Hi Hr. unfold returned in Hr.
  destruct (results_of s) as [r|] eqn:E; [|discriminate].
  injection Hr as <-. unfold results_of in E. apply mapM_Some in E.
  pose proof (Forall2_length _ _ _ E) as Hlen.
  rewrite (inv_length _ _ _ _ _ Hi) in Hlen.
  unfold make_aggregate. simpl. rewrite !length_map.
  split; [lia|]. split; [lia|].
  intros i url Hu. rewrite list_lookup_fmap.
  destruct (lookup_lt_is_Some_2 (tasks s) i) as [t Ht].
  { rewrite (inv_length _ _ _ _ _ Hi). eapply lookup_lt_Some; eassumption. }
  destruct (Forall2_lookup_l _ _ _ _ _ E Ht) as (g & Hg & Htg).
  rewrite Hg. simpl. destruct t; try discriminate. injection Htg as ->.
  destruct (inv_done _ _ _ _ _ Hi _ _ Ht) as (url' & Hu' & ->).
  rewrite Hu in Hu'. injection Hu' as <-. reflexivity.
Qed.

(** A returned call returns the tasks' values by position. *)
Lemma returned_is_gather (s : sched) (agg : aggregate) :
  inv s -> returned s = Some agg ->
  agg = make_aggregate (gather feedparser_parse client feed_urls).
Proof.
  intros Hi Hr. destruct (returned_entries s agg Hi Hr) as (Hl & Ht & He).
  destruct agg as [fs n]. simpl in *. unfold make_aggregate.
  assert (Hfs : fs = map process (gather feedparser_parse client feed_urls)).
  { apply list_eq. intros i. unfold gather.
    rewrite list_lookup_fmap, list_lookup_imap.
    destruct (feed_urls !! i) as [url|] eqn:Eu; simpl.
    - apply He, Eu.
    - apply lookup_ge_None. apply lookup_ge_None in Eu. lia. }
  rewrite <- Hfs. f_equal. lia.
Qed.

End Run.

(** The entry of a task carries the task's own URL. *)
Lemma entry_of_url (parse : string -> raw_feed + string)
    (client : nat -> string -> http_reply) (i : nat) (url : string) :
  result_url (entry_of parse client i url) = Some url.
Proof.
  unfold entry_of, fetch_single_rss_feed.
  destruct (negb (validate_url url)); simpl; [reflexivity|].
  destruct (client i url); [|reflexivity].
  destruct (parse text); reflexivity.
Qed.

(** The entry of a task depends on the answer to its own request only. *)
Lemma entry_of_own_request (parse : string -> raw_feed + string)
    (client client' : nat -> string -> http_reply) (i : nat) (url : string) :
  client' i url = client i url ->
  entry_of parse client' i url = entry_of parse client i url.
Proof. intros H. unfold entry_of, fetch_single_rss_feed. rewrite H. reflexivity. Qed.

(** C4.  A call for [N] targets that returns, returns [N] entries with
    [total_feeds = N], and at each position the entry of the target at that
    position of the input, whatever the order in which the requests
    complete.  The entry at a position is the same under any other
    behaviour of the network that answers the request of that position
    alike: failures of the other targets neither remove, move nor change
    it.  With a cap of at least one the call does return. *)
Theorem aggregate_in_input_order
    (parse : string -> raw_feed + string)
    (client client' : nat -> string -> http_reply)
    (feed_urls : list string) (max_concurrent : Z) (s0 : sched) :
  init feed_urls max_concurrent = Some s0 ->
  (1 <= max_concurrent ->
   exists s agg, reachable parse client feed_urls s0 s /\ returned s = Some agg) /\
  (forall s agg,
      reachable parse client feed_urls s0 s -> returned s = Some agg ->
      length (feeds agg) = length feed_urls /\
      total_feeds agg = length feed_urls /\
      (forall i url, feed_urls !! i = Some url ->
         feeds agg !! i = Some (entry_of parse client i url) /\
         result_url (entry_of parse client i url) = Some url) /\
      (forall s' agg' i url,
         reachable parse client' feed_urls s0 s' -> returned s' = Some agg' ->
         feed_urls !! i = Some url -> client' i url = client i url ->
         feeds agg' !! i = feeds agg !! i)).
Proof.
  unfold init. destruct (max_concurrent <? 0) eqn:E; [discriminate|].
  intros [= <-]. split.
  - intros Hc.
    destruct (can_return parse client feed_urls (Z.to_nat max_concurrent)
                _ _ ltac:(lia) (Nat.le_refl _) (reach_init _ _ _ _))
      as (s & Hr & [agg Ha]).
    exists s, agg. split; assumption.
  - intros s agg Hr Ha.
    destruct (returned_entries parse client feed_urls _ s agg
                (inv_reachable _ _ _ _ _ Hr) Ha) as (Hl & Ht & He).
    repeat split; try assumption.
    + apply He. assumption.
    + apply entry_of_url.
    + intros s' agg' i url Hr' Ha' Hu Hsame.
      destruct (returned_entries parse client' feed_urls _ s' agg'
                  (inv_reachable _ _ _ _ _ Hr') Ha') as (_ & _ & He').
      rewrite (He' i url Hu), (He i url Hu).
      f_equal. apply entry_of_own_request, Hsame.
Qed.

Lemma aggregate_in_input_order_witness :
  init three_feeds 2 = Some (start three_feeds 2) /\
  exists s agg,
    reachable one_entry_feed flaky_client three_feeds (start three_feeds 2) s /\
    returned s = Some agg.
Proof.
  split; [reflexivity|].
  destruct (aggregate_in_input_order one_entry_feed flaky_client flaky_client
              three_feeds 2 (start three_feeds 2) eq_refl) as [Hex _].
  apply Hex. lia.
Defined.

(** The three targets of the sample: the entries come in the order of the
    input, the refused one in the middle with its error. *)
Example three_feeds_aggregate :
  let first := mkEntry "first" EmptyString EmptyString EmptyString EmptyString in
  let second_url := "https://feeds.example.com/b.xml" in
  make_aggregate (gather one_entry_feed (fun _ url => HttpText url) three_feeds)
  = mkAggregate
      [FeedData public_feed (mkFeedData public_feed EmptyString [first] 1);
       FeedError localhost_feed "Invalid or unsafe URL";
       FeedData second_url (mkFeedData second_url EmptyString [first] 1)]
      3.
Proof. vm_compute. reflexivity. Qed.

(** C5.  In every state of a call with cap [C >= 1]: at most [C] tasks
    hold a slot; tasks wait only while all [C] slots are held; the queue of
    waiting tasks is first in, first out (a step leaves it alone, appends
    the task that starts, or removes its head, and a waiting task that is
    given a slot is the head); when a task holding a slot finishes, with
    whatever result, its slot goes at once to the head of the queue, or
    becomes free when nobody waits; and a task that starts takes a slot
    when fewer than [C] are held, and otherwise joins the end of the queue
    and waits. *)
Theorem at_most_cap_in_flight
    (parse : string -> raw_feed + string) (client : nat -> string -> http_reply)
    (feed_urls : list string) (max_concurrent : Z) :
  1 <= max_concurrent ->
  exists s0, init feed_urls max_concurrent = Some s0 /\
    forall s, reachable parse client feed_urls s0 s ->
      (in_flight s <= Z.to_nat max_concurrent)%nat /\
      (waiters s <> [] -> in_flight s = Z.to_nat max_concurrent) /\
      (forall s', step parse client feed_urls s s' ->
         (waiters s' = waiters s
          \/ (exists i, tasks s !! i = Some Created /\ waiters s' = waiters s ++ [i])
          \/ (exists w, waiters s = w :: waiters s')) /\
         (forall w, tasks s !! w = Some Waiting -> tasks s' !! w = Some InFlight ->
            hd_error (waiters s) = Some w)) /\
      (forall i url g, tasks s !! i = Some InFlight -> feed_urls !! i = Some url ->
         g = fetch_with_semaphore parse client i url ->
         tasks (finish i g s) !! i = Some (Done g) /\
         match waiters s with
         | w :: ws =>
             tasks s !! w = Some Waiting /\
             tasks (finish i g s) !! w = Some InFlight /\
             waiters (finish i g s) = ws /\
             in_flight (finish i g s) = in_flight s
         | [] =>
             value (finish i g s) = S (value s) /\
             S (in_flight (finish i g s)) = in_flight s
         end) /\
      (forall i, tasks s !! i = Some Created ->
         ((in_flight s < Z.to_nat max_concurrent)%nat ->
          tasks (acquire i s) !! i = Some InFlight /\
          waiters (acquire i s) = waiters s /\
          in_flight (acquire i s) = S (in_flight s)) /\
         (in_flight s = Z.to_nat max_concurrent ->
          tasks (acquire i s) !! i = Some Waiting /\
          waiters (acquire i s) = waiters s ++ [i] /\
          in_flight (acquire i s) = in_flight s)).
Proof.
  intros Hc. unfold init.
  destruct (max_concurrent <? 0) eqn:E; [apply Z.ltb_lt in E; lia|].
  eexists. split; [reflexivity|].
  intros s Hr. pose proof (inv_reachable _ _ _ _ _ Hr) as Hi.
  pose proof (inv_slots _ _ _ _ _ Hi) as Hs.
  split; [lia|]. split.
  { intros Hw. pose proof (inv_full _ _ _ _ _ Hi Hw). lia. }
  split; [|split].
  - intros s' Hst. destruct Hst as [i s Hcr _|i url s Hf Hu].
    + unfold acquire. destruct (_ && _); simpl.
      * split; [left; reflexivity|]. intros w Hw Hw'.
        destruct (decide (w = i)) as [->|Hne]; [congruence|].
        rewrite list_lookup_insert_ne in Hw' by congruence. congruence.
      * split; [right; left; exists i; split; [exact Hcr|reflexivity]|].
        intros w Hw Hw'.
        destruct (decide (w = i)) as [->|Hne]; [congruence|].
        rewrite list_lookup_insert_ne in Hw' by congruence. congruence.
    + unfold finish, release. simpl.
      destruct (waiters s) as [|w ws] eqn:Ew; simpl.
      * split; [left; reflexivity|]. intros w Hw Hw'.
        destruct (decide (w = i)) as [->|Hne]; [congruence|].
        rewrite list_lookup_insert_ne in Hw' by congruence. congruence.
      * split; [right; right; exists w; reflexivity|]. intros x Hx Hx'.
        destruct (decide (x = w)) as [->|Hne]; [reflexivity|].
        rewrite list_lookup_insert_ne in Hx' by congruence.
        destruct (decide (x = i)) as [->|Hne']; [congruence|].
        rewrite list_lookup_insert_ne in Hx' by congruence. congruence.
  - intros i url g Hf Hu ->.
    set (g := fetch_with_semaphore parse client i url).
    assert (Hlt : (i < length (tasks s))%nat) by (eapply lookup_lt_Some; eassumption).
    pose proof (weigh_insert (fun t => if is_in_flight t then 1 else 0)%nat
                  _ i InFlight (Done g) Hf) as W1.
    simpl in W1. unfold finish, release. simpl.
    destruct (waiters s) as [|w ws] eqn:Ew; simpl.
    + split; [apply list_lookup_insert_eq; exact Hlt|].
      split; [reflexivity|]. unfold in_flight in *. simpl. lia.
    + assert (Hw : tasks s !! w = Some Waiting).
      { apply (inv_queue _ _ _ _ _ Hi). rewrite Ew. left. reflexivity. }
      assert (Hwi : w <> i) by congruence.
      assert (Hw' : <[i := Done g]> (tasks s) !! w = Some Waiting)
        by (rewrite list_lookup_insert_ne by congruence; exact Hw).
      pose proof (weigh_insert (fun t => if is_in_flight t then 1 else 0)%nat
                    _ w Waiting InFlight Hw') as W2.
      simpl in W2.
      split.
      * rewrite list_lookup_insert_ne by congruence.
        apply list_lookup_insert_eq. exact Hlt.
      * split; [exact Hw|]. split.
        -- apply list_lookup_insert_eq. rewrite length_insert.
           eapply lookup_lt_Some; eassumption.
        -- split; [reflexivity|]. unfold in_flight in *. simpl. lia.
  - intros i Hcr.
    assert (Hlt : (i < length (tasks s))%nat) by (eapply lookup_lt_Some; eassumption).
    pose proof (weigh_insert (fun t => if is_in_flight t then 1 else 0)%nat
                  _ i Created InFlight Hcr) as W1.
    pose proof (weigh_insert (fun t => if is_in_flight t then 1 else 0)%nat
                  _ i Created Waiting Hcr) as W2.
    simpl in W1, W2. unfold acquire. split.
    + intros Hfree.
      assert (Hv : (0 <? value s)%nat = true) by (apply Nat.ltb_lt; lia).
      assert (Hq : waiters s = []).
      { destruct (waiters s) as [|w ws] eqn:Ew; [reflexivity|].
        pose proof (inv_full _ _ _ _ _ Hi) as Hfull. rewrite Ew in Hfull.
        specialize (Hfull ltac:(discriminate)). lia. }
      rewrite Hv, Hq. simpl.
      split; [apply list_lookup_insert_eq; exact Hlt|].
      split; [reflexivity|]. unfold in_flight in *. simpl. lia.
    + intros Hfull.
      assert (Hv : (0 <? value s)%nat = false) by (apply Nat.ltb_ge; lia).
      rewrite Hv. simpl.
      split; [apply list_lookup_insert_eq; exact Hlt|].
      split; [reflexivity|]. unfold in_flight in *. simpl. lia.
Qed.

(** Three targets at cap two: the first two tasks take the slots, the
    third one waits in the queue, and gets the slot of the first when that
    one finishes. *)
Lemma at_most_cap_in_flight_witness :
  let s1 := acquire 0 (start three_feeds 2) in
  let s2 := acquire 1 s1 in
  let s3 := acquire 2 s2 in
  let g := fetch_with_semaphore one_entry_feed flaky_client 0 public_feed in
  reachable one_entry_feed flaky_client three_feeds (start three_feeds 2) s3 /\
  tasks s1 = [InFlight; Created; Created] /\
  tasks s3 = [InFlight; InFlight; Waiting] /\ waiters s3 = [2%nat] /\
  (in_flight s3 <= 2)%nat /\
  tasks (finish 0 g s3) !! 2%nat = Some InFlight /\
  waiters (finish 0 g s3) = [].
Proof.
  intros s1 s2 s3 g.
  destruct (at_most_cap_in_flight one_entry_feed flaky_client three_feeds 2
              ltac:(lia)) as (s0 & H0 & H).
  injection H0 as <-.
  assert (R1 : reachable one_entry_feed flaky_client three_feeds
                 (start three_feeds 2) s1).
  { eapply reach_step; [apply reach_init|].
    apply step_start; [reflexivity|]. intros j Hj. lia. }
  assert (R2 : reachable one_entry_feed flaky_client three_feeds
                 (start three_feeds 2) s2).
  { eapply reach_step; [exact R1|].
    apply step_start; [reflexivity|].
    intros [|j] Hj; [discriminate|lia]. }
  assert (R3 : reachable one_entry_feed flaky_client three_feeds
                 (start three_feeds 2) s3).
  { eapply reach_step; [exact R2|].
    apply step_start; [reflexivity|].
    intros [|[|j]] Hj; [discriminate|discriminate|lia]. }
  destruct (H _ (reach_init _ _ _ _)) as (_ & _ & _ & _ & A0).
  destruct (A0 0%nat eq_refl) as [F0 _].
  destruct F0 as (T0 & _ & _); [change (0 < 2)%nat; lia|].
  destruct (H s2 R2) as (_ & _ & _ & _ & A2).
  destruct (A2 2%nat eq_refl) as [_ F2].
  destruct F2 as (T2 & W2 & _); [reflexivity|].
  destruct (H s3 R3) as (B3 & _ & _ & F3 & _).
  destruct (F3 0%nat public_feed g eq_refl eq_refl eq_refl) as (_ & F).
  simpl in F. destruct F as (_ & Fw & Fq & _).
  split; [exact R3|]. split; [reflexivity|]. split; [reflexivity|].
  split; [exact W2|]. split; [exact B3|]. split; [exact Fw|exact Fq].
Defined.

(** Without a slot every task waits: the first task to start joins
    the queue, and no later state has a task holding a slot. *)
Example no_slot_all_wait :
  acquire 0 (start three_feeds 0)
  = mkSched [Waiting; Created; Created] 0 [0%nat].
Proof. reflexivity. Qed.

End ServicesProofs.

(* ===================================================================== *)
(** ** Further properties of chainlint.py                                  *)
(* ===================================================================== *)

Module ChainlintMore.
Import Json Chainlint Samples.

Local Arguments scanstring : simpl never.
Local Arguments scan_number : simpl never.
Local Arguments skip_ws : simpl never.

(** *** What the decoder builds from which text *)

Lemma scan_literal_value (kw : string) (v w : json) (s r : string) :
  scan_literal kw v s = Parsed w r -> w = v.
Proof.
  unfold scan_literal. destruct (strip_prefix kw s); [|discriminate].
  intros [= <- _]. reflexivity.
Qed.

Lemma scan_number_value (s r : string) (v : json) :
  scan_number s = Some (v, r) -> is_dict v = false.
Proof.
  unfold scan_number.
  destruct (match s with String "-" r0 => (true, r0) | _ => (false, s) end)
    as [neg s1].
  destruct (scan_intpart s1) as [[ip r0]|]; [|discriminate].
  destruct (scan_frac r0) as [[[fv fl] r1]|].
  - destruct (scan_exp r1) as [[ex r2]|]; intros [= <- _]; reflexivity.
  - destruct (scan_exp r0) as [[ex r2]|]; intros [= <- _]; reflexivity.
Qed.

Lemma scan_items_value (f : nat) (s r : string) (acc : list json) (v : json) :
  scan_items f s acc = Parsed v r -> is_dict v = false.
Proof.
  revert s acc. induction f as [|f IH]; intros s acc; [discriminate|].
  simpl. destruct (scan_once f s) as [w r0| |]; try discriminate.
  destruct (skip_ws r0) as [|c1 r1]; [discriminate|].
  destruct (Ascii.eqb c1 "]"); [intros [= <- _]; reflexivity|].
  destruct (Ascii.eqb c1 ","); [|discriminate]. apply IH.
Qed.

(** Only a text that starts with an opening brace decodes to a dict. *)
Lemma scan_once_dict (f : nat) (s r : string) (d : list (string * json)) :
  scan_once f s = Parsed (JObject d) r -> exists s', s = String "{" s'.
Proof.
  destruct f as [|f]; [discriminate|]. simpl.
  destruct s as [|c s']; [discriminate|].
  destruct (Ascii.eqb c dquote).
  { destruct (scanstring _ _); discriminate. }
  destruct (Ascii.eqb_spec c "{") as [->|_]; [intros _; eexists; reflexivity|].
  destruct (Ascii.eqb c "[").
  { destruct (skip_ws s') as [|c1 r1]; [discriminate|].
    destruct (Ascii.eqb c1 "]"); [discriminate|].
    intros H. apply scan_items_value in H. discriminate. }
  destruct (Ascii.eqb c "n");
    [intros H; apply scan_literal_value in H; discriminate|].
  destruct (Ascii.eqb c "t");
    [intros H; apply scan_literal_value in H; discriminate|].
  destruct (Ascii.eqb c "f");
    [intros H; apply scan_literal_value in H; discriminate|].
  destruct (scan_number (String c s')) as [[v0 r0]|] eqn:En.
  { intros [= -> _]. apply scan_number_value in En. discriminate. }
  destruct (Ascii.eqb c "N");
    [intros H; apply scan_literal_value in H; discriminate|].
  destruct (Ascii.eqb c "I");
    [intros H; apply scan_literal_value in H; discriminate|].
  destruct (Ascii.eqb c "-");
    [intros H; apply scan_literal_value in H; discriminate|].
  discriminate.
Qed.

Lemma skip_ws_contains (c : ascii) (s s' : string) :
  skip_ws s = String c s' -> Py.contains_char c s = true.
Proof.
  induction s as [|a r IH]; [discriminate|].
  unfold skip_ws; fold skip_ws. simpl.
  destruct (is_ws a).
  - intros H. rewrite (IH H). destruct (Ascii.eqb a c); reflexivity.
  - intros [= -> _]. rewrite Ascii.eqb_refl. reflexivity.
Qed.

Lemma loads_dict_has_brace (s : string) (d : list (string * json)) :
  Json.loads s = Some (JObject d) -> Py.contains_char "{" s = true.
Proof.
  unfold Json.loads, decode. destruct (Py.startswith bom s); [discriminate|].
  destruct (scan_once _ (skip_ws s)) as [v r| |] eqn:E; try discriminate.
  destruct (skip_ws r); [|discriminate]. intros [= ->].
  apply scan_once_dict in E. destruct E as [s' E].
  eapply skip_ws_contains, E.
Qed.

(** A reply without an opening brace is never taken for a tool call. *)
Lemma generate_response_without_braces (content : string) :
  Py.contains_char "{" content = false ->
  generate_response content = text_response content.
Proof.
  intros H. unfold generate_response.
  destruct (Json.loads content) as [parsed|] eqn:E; [|reflexivity].
  destruct parsed; try reflexivity.
  apply loads_dict_has_brace in E. congruence.
Qed.

(** X1.  Every reply without an opening brace, whatever else it holds,
    makes the handler raise [TypeError]: [generate_response] passes it on
    as text, [extract_json_from_text] finds no match and returns [None],
    and the handler subscripts it. *)
Theorem reply_without_braces_raises (content : string) :
  Py.contains_char "{" content = false ->
  handle_reply content = Raise TypeError.
Proof.
  intros H. unfold handle_reply.
  rewrite (generate_response_without_braces _ H).
  apply ChainlintProofs.handler_raises_without_braces, H.
Qed.

Lemma reply_without_braces_raises_witness :
  handle_reply "[1, 2, 3]" = Raise TypeError.
Proof. apply reply_without_braces_raises. reflexivity. Defined.

(** X2.  The span [extract_json_from_text] decodes is the embedded object
    itself exactly when no opening brace comes before the object and no
    closing brace after it. *)
Theorem span_is_the_object (before body after : string) :
  Py.contains_char "{" before = false ->
  Py.contains_char "}" after = false ->
  search_braces (before +:+ String "{" (body +:+ "}") +:+ after)
    = Some (String "{" (body +:+ "}")) /\
  extract_json_from_text (before +:+ String "{" (body +:+ "}") +:+ after)
    = default JNull (Json.loads (String "{" (body +:+ "}"))).
Proof.
  intros Hb Ha.
  pose proof (ChainlintProofs.search_braces_embedded before body after Hb Ha) as H.
  split; [exact H|]. unfold extract_json_from_text. rewrite H.
  destruct (Json.loads _); reflexivity.
Qed.

Lemma span_is_the_object_witness :
  search_braces ("Sure. " +:+ String "{" ("'a': {'b': 1}" +:+ "}") +:+ " Done.")
    = Some (String "{" ("'a': {'b': 1}" +:+ "}")).
Proof.
  apply (span_is_the_object "Sure. " "'a': {'b': 1}" " Done."); reflexivity.
Defined.

(** X3.  A tool call embedded in prose without braces is dispatched: when
    the reply as a whole is not JSON, no opening brace precedes the object
    and no closing brace follows it, and the object decodes to a dict with
    [action] equal to [use_tool] and with [tool] and [arguments], the
    handler calls the tool with exactly that name and those arguments. *)
Theorem embedded_call_is_dispatched
    (before body after : string) (d : list (string * json))
    (tool arguments : json) :
  Py.contains_char "{" before = false ->
  Py.contains_char "}" after = false ->
  Json.loads (before +:+ String "{" (body +:+ "}") +:+ after) = None ->
  Json.loads (String "{" (body +:+ "}")) = Some (JObject d) ->
  dict_get "action" d = Some (JString "use_tool") ->
  dict_get "tool" d = Some tool ->
  dict_get "arguments" d = Some arguments ->
  handle_reply (before +:+ String "{" (body +:+ "}") +:+ after)
    = Ok (ToolAction tool arguments).
Proof.
  intros Hb Ha Hw Ho Hact Htool Hargs.
  unfold handle_reply, generate_response. rewrite Hw.
  unfold main, text_response. cbn [getitem dict_get String.eqb Ascii.eqb Bool.eqb bind].
  destruct (span_is_the_object before body after Hb Ha) as [_ ->].
  rewrite Ho. simpl. rewrite Hact. simpl. rewrite Htool, Hargs.
  reflexivity.
Qed.

Lemma embedded_call_is_dispatched_witness :
  handle_reply
    ("Sure, let me look. "
       +:+ String "{" (dq "'action': 'use_tool', 'tool': 'get_events', 'arguments': {'days_ahead': 7}" +:+ "}")
       +:+ " One moment.")
  = Ok (ToolAction (JString "get_events") (JObject [("days_ahead", JInt 7)])).
Proof.
  apply (embedded_call_is_dispatched "Sure, let me look. "
           (dq "'action': 'use_tool', 'tool': 'get_events', 'arguments': {'days_ahead': 7}")
           " One moment."
           [("action", JString "use_tool"); ("tool", JString "get_events");
            ("arguments", JObject [("days_ahead", JInt 7)])]);
    vm_compute; reflexivity.
Defined.

(** X4.  Whenever [generate_response] recognises the reply as a tool call
    (the whole reply decodes to a dict whose [action] is [use_tool]), the
    dict it returns has no [content], and the handler raises
    [KeyError('content')] before it looks at the tool. *)
Theorem recognised_tool_call_raises (content : string) (d : list (string * json)) :
  Json.loads content = Some (JObject d) ->
  eq_str (default JNull (dict_get "action" d)) "use_tool" = true ->
  handle_reply content = Raise (KeyError "content").
Proof.
  intros Hl Ha. unfold handle_reply, generate_response, tool_call_of_parsed.
  rewrite Hl, Ha. reflexivity.
Qed.

Lemma recognised_tool_call_raises_witness :
  handle_reply embedded_call = Raise (KeyError "content").
Proof.
  apply (recognised_tool_call_raises embedded_call
           [("action", JString "use_tool"); ("tool", JString "get_events");
            ("arguments", JObject [("days_ahead", JInt 7)])]);
    vm_compute; reflexivity.
Defined.

(** *** [call_tool] *)

Lemma route_never_lists_resources (tool_name : string) (arguments : json) :
  route tool_name arguments <> Send GetResources.
Proof.
  unfold route.
  repeat match goal with
         | |- context [if String.eqb tool_name ?n then _ else _] =>
             destruct (String.eqb tool_name n); [discriminate|]
         end.
  - destruct (String.eqb tool_name "delete_event").
    + destruct arguments; try discriminate.
      destruct (negb _); discriminate.
    + destruct (String.eqb tool_name "update_config"); discriminate.
Qed.

(** X5.  After any call of [call_tool] the client is marked connected,
    even when the server could not be reached, so the resources are listed
    at most once: the first call makes at most two requests, and the next
    call makes at most one and does not list the resources again. *)
Theorem resources_listed_at_most_once
    (backend : request -> http_result) (c : client)
    (tool1 tool2 : string) (arguments1 arguments2 : json) :
  let '(_, c1, trace1) := call_tool backend c tool1 arguments1 in
  let '(_, c2, trace2) := call_tool backend c1 tool2 arguments2 in
  connected c1 = true /\ connected c2 = true /\
  (length trace1 <= 2)%nat /\ (length trace2 <= 1)%nat /\
  ~ In GetResources trace2.
Proof.
  unfold call_tool at 1.
  assert (Hc : forall c0, connected c0 = true ->
            let '(_, c2, trace2) := call_tool backend c0 tool2 arguments2 in
            connected c0 = true /\ connected c2 = true /\
            (length trace2 <= 1)%nat /\ ~ In GetResources trace2).
  { intros c0 H0. unfold call_tool. rewrite H0.
    pose proof (route_never_lists_resources tool2 arguments2) as Hr.
    destruct (route tool2 arguments2) as [r|res|msg]; simpl;
      repeat split; auto; try lia; try tauto.
    intros [->|[]]. congruence. }
  destruct (connected c) eqn:E.
  - destruct (route tool1 arguments1) as [r|res|msg];
      specialize (Hc c E); destruct (call_tool backend c tool2 arguments2) as [[? c2] t2];
      simpl; intuition lia.
  - unfold connect, list_tools.
    set (c1 := mkClient true _).
    destruct (route tool1 arguments1) as [r|res|msg];
      specialize (Hc c1 eq_refl);
      destruct (call_tool backend c1 tool2 arguments2) as [[? c2] t2];
      simpl; intuition lia.
Qed.

(** X6.  For a connected client and every tool of the catalog other than
    [delete_event], [call_tool] makes exactly one request, which carries
    the arguments as they were given; the result is the body of the
    response, and [{"error": msg}] when the request fails. *)
Theorem catalog_tool_makes_one_request
    (backend : request -> http_result) (c : client)
    (tool_name : string) (arguments : json) :
  connected c = true ->
  In tool_name catalog -> tool_name <> "delete_event" ->
  exists req,
    (exists path, req = Get path arguments \/ req = Post path arguments) /\
    call_tool backend c tool_name arguments
    = (match backend req with
       | Response body => body
       | Failure msg => error_result msg
       end, c, [req]).
Proof.
  intros Hc Hin Hne. unfold call_tool. rewrite Hc.
  unfold catalog in Hin. simpl in Hin.
  destruct Hin as [<-|[<-|[<-|[<-|[<-|[<-|[<-|[<-|[]]]]]]]]];
    try congruence; cbn [route String.eqb Ascii.eqb Bool.eqb];
    eexists; (split; [eexists; (left + right); reflexivity|reflexivity]).
Qed.

Lemma catalog_tool_makes_one_request_witness :
  exists req,
    (exists path, req = Get path (JObject []) \/ req = Post path (JObject [])) /\
    call_tool server_down (mkClient true tool_list) "get_events" (JObject [])
    = (match server_down req with
       | Response body => body
       | Failure msg => error_result msg
       end, mkClient true tool_list, [req]).
Proof.
  apply (catalog_tool_makes_one_request server_down (mkClient true tool_list)
           "get_events" (JObject [])).
  - reflexivity.
  - unfold catalog. simpl. tauto.
  - discriminate.
Defined.

(** X7.  [delete_event] asks the server exactly when [event_id] is present
    and truthy: then the one request is the deletion of that id; an
    [event_id] that is present but falsy (an empty string, zero, [null],
    [false]) is answered [event_id is required] without a request, like a
    missing one. *)
Theorem delete_event_needs_truthy_id
    (backend : request -> http_result) (c : client)
    (d : list (string * json)) (event_id : json) :
  connected c = true ->
  dict_get "event_id" d = Some event_id ->
  call_tool backend c "delete_event" (JObject d)
  = if truthy event_id
    then (match backend (DeleteEvent event_id) with
          | Response body => body
          | Failure msg => error_result msg
          end, c, [DeleteEvent event_id])
    else (error_result "event_id is required", c, []).
Proof.
  intros Hc Hd. unfold call_tool. rewrite Hc.
  cbn [route String.eqb Ascii.eqb Bool.eqb]. rewrite Hd. simpl.
  destruct (truthy event_id); reflexivity.
Qed.

Lemma delete_event_needs_truthy_id_witness :
  call_tool server_down (mkClient true tool_list) "delete_event"
            (JObject [("event_id", JInt 0)])
  = (error_result "event_id is required", mkClient true tool_list, []).
Proof.
  apply (delete_event_needs_truthy_id server_down (mkClient true tool_list)
           [("event_id", JInt 0)] (JInt 0)); reflexivity.
Defined.

End ChainlintMore.

(* ===================================================================== *)
(** ** Further properties of lib/utils.py and of the single feed           *)
(* ===================================================================== *)

Module UtilsMore.
Import Utils SingleFeed Samples.

Lemma append_cons (c : ascii) (r s : string) :
  String c r +:+ s = String c (r +:+ s).
Proof. reflexivity. Qed.

Lemma append_nil (s : string) : EmptyString +:+ s = s.
Proof. reflexivity. Qed.

Lemma startswith_app (p r : string) : Py.startswith p (p +:+ r) = true.
Proof.
  induction p as [|c p IH]; [reflexivity|].
  rewrite append_cons. simpl. rewrite Ascii.eqb_refl. exact IH.
Qed.

Lemma split_whole (sep : ascii) (a : string) :
  Py.contains_char sep a = false -> Py.split sep a = [a].
Proof.
  induction a as [|c a IH]; [reflexivity|]. simpl.
  destruct (Ascii.eqb c sep); [discriminate|].
  intros H. rewrite (IH H). reflexivity.
Qed.

Lemma split_app (sep : ascii) (a b : string) :
  Py.contains_char sep a = false ->
  Py.split sep (a +:+ String sep b) = a :: Py.split sep b.
Proof.
  induction a as [|c a IH].
  - intros _. rewrite append_nil. simpl. rewrite Ascii.eqb_refl. reflexivity.
  - rewrite append_cons. simpl. destruct (Ascii.eqb c sep); [discriminate|].
    intros H. rewrite (IH H). reflexivity.
Qed.

(** X8.  The guard refuses every host of the private IPv4 ranges written
    as a dotted quad: every host that starts with [10.] or with
    [192.168.], and every host [172.b.c.d] whose second octet [int()]
    reads as a number from 16 to 31. *)
Theorem private_ranges_refused
    (parsed : parsed_url) (h rest o2 o3 o4 : string) (n : Z) :
  hostname parsed = Some h ->
  h = "10." +:+ rest \/ h = "192.168." +:+ rest \/
  (h = "172." +:+ o2 +:+ "." +:+ o3 +:+ "." +:+ o4 /\
   Py.contains_char "." o2 = false /\ Py.contains_char "." o3 = false /\
   Py.contains_char "." o4 = false /\
   Py.int_of_str o2 = Some n /\ 16 <= n <= 31) ->
  validate_parsed parsed = false.
Proof.
  intros Hh H. unfold validate_parsed. rewrite Hh.
  destruct (negb _); [reflexivity|].
  destruct (existsb _ _); [reflexivity|].
  destruct H as [->|[->|(-> & H2 & H3 & H4 & Hn & Hr)]].
  - destruct (has_prefix "192.168." _); [reflexivity|].
    unfold has_prefix at 1. rewrite startswith_app. reflexivity.
  - unfold has_prefix at 1. rewrite startswith_app. reflexivity.
  - destruct (has_prefix "192.168." _); [reflexivity|].
    destruct (has_prefix "10." _); [reflexivity|].
    unfold has_prefix. rewrite startswith_app.
    cbn [default negb andb String.eqb].
    change ("172." +:+ o2 +:+ "." +:+ o3 +:+ "." +:+ o4)
      with ("172" +:+ String "." (o2 +:+ String "." (o3 +:+ String "." o4))).
    unfold id.
    match goal with
    | |- context [negb ?b && true] => replace (negb b && true) with true by reflexivity
    end.
    rewrite (split_app "." "172" _ eq_refl), (split_app "." o2 _ H2),
      (split_app "." o3 _ H3), (split_whole "." o4 H4).
    cbn [length Nat.eqb nth]. rewrite Hn.
    destruct (16 <=? n) eqn:E1; [|lia]. destruct (n <=? 31) eqn:E2; [|lia].
    reflexivity.
Qed.

Lemma private_ranges_refused_witness :
  validate_parsed (mkParsed "https" (Some ("172." +:+ "016" +:+ "." +:+ "0" +:+ "." +:+ "1")))
  = false.
Proof.
  apply (private_ranges_refused
           (mkParsed "https" (Some ("172." +:+ "016" +:+ "." +:+ "0" +:+ "." +:+ "1")))
           ("172." +:+ "016" +:+ "." +:+ "0" +:+ "." +:+ "1")
           EmptyString "016" "0" "1" 16 eq_refl).
  right. right. repeat split; try reflexivity; lia.
Defined.

(** X9.  [fetch_single_rss_feed] never raises and never requests anything
    but its own URL: the result carries the URL it was given; the URL is
    requested, once, exactly when the guard accepts it; and a refused URL
    gets the error entry [Invalid or unsafe URL]. *)
Theorem fetch_requests_own_url_only
    (parse : string -> raw_feed + string) (session : string -> http_reply)
    (feed_url : string) (max_entries : Z) :
  let '(r, requested) := fetch_single_rss_feed parse session feed_url max_entries in
  result_url r = Some feed_url /\
  requested = (if validate_url feed_url then [feed_url] else []) /\
  (validate_url feed_url = false -> r = FeedError feed_url "Invalid or unsafe URL").
Proof.
  unfold fetch_single_rss_feed.
  destruct (validate_url feed_url); simpl.
  - split; [|split; [reflexivity|discriminate]].
    destruct (session feed_url); [|reflexivity].
    destruct (parse text); reflexivity.
  - repeat split.
Qed.

Lemma fetch_requests_own_url_only_witness :
  fetch_single_rss_feed one_entry_feed (fun u => HttpText u) localhost_feed 5
  = (FeedError localhost_feed "Invalid or unsafe URL", []).
Proof.
  pose proof (fetch_requests_own_url_only one_entry_feed (fun u => HttpText u)
                localhost_feed 5) as H.
  destruct (fetch_single_rss_feed _ _ _ _) as [r requested].
  destruct H as (_ & Hreq & Hr). rewrite Hreq, (Hr eq_refl). reflexivity.
Defined.

Lemma slice_to_length {A} (n : Z) (l : list A) :
  0 <= n -> (Z.of_nat (length (slice_to n l)) <= n).
Proof.
  intros H. unfold slice_to. destruct (0 <=? n) eqn:E; [|lia].
  rewrite length_take. lia.
Qed.

Lemma slice_to_negative {A} (n : Z) (l : list A) :
  n < 0 ->
  Z.of_nat (length (slice_to n l)) = Z.max 0 (Z.of_nat (length l) + n).
Proof.
  intros H. unfold slice_to. destruct (0 <=? n) eqn:E; [lia|].
  rewrite length_take. lia.
Qed.

(** X10.  A feed that was fetched reports as many entries as it lists,
    [total_entries = len(entries)]; with [max_entries >= 0] they are at
    most [max_entries]; a negative [max_entries] is a slice from the end,
    which drops the last entries of the parsed feed instead of limiting
    their number. *)
Theorem entries_are_limited
    (parse : string -> raw_feed + string) (session : string -> http_reply)
    (feed_url : string) (max_entries : Z) (url : string) (d : feed_data) :
  fst (fetch_single_rss_feed parse session feed_url max_entries) = FeedData url d ->
  total_entries d = length (entries d) /\
  (0 <= max_entries -> Z.of_nat (length (entries d)) <= max_entries) /\
  (max_entries < 0 ->
   exists text feed, session feed_url = HttpText text /\ parse text = inl feed /\
     Z.of_nat (length (entries d))
     = Z.max 0 (Z.of_nat (length (raw_entries feed)) + max_entries)).
Proof.
  unfold fetch_single_rss_feed.
  destruct (negb (validate_url feed_url)); [discriminate|]. simpl.
  destruct (session feed_url) as [text|]; [|discriminate].
  destruct (parse text) as [feed|] eqn:Ep; [|discriminate].
  intros [= _ <-]. simpl. rewrite !length_map.
  split; [reflexivity|]. split.
  - apply slice_to_length.
  - intros H. exists text, feed. repeat split; [exact Ep|].
    apply slice_to_negative, H.
Qed.

(** A feed of seven entries: a limit of five keeps five of them, a limit
    of [-2] keeps five as well (all but the last two), and a limit of [-9]
    keeps none. *)
Lemma entries_are_limited_witness :
  let fetched (max_entries : Z) :=
    fst (fetch_single_rss_feed seven_entry_feed (fun url => HttpText url)
           public_feed max_entries) in
  exists d5 d2 d9,
    fetched 5 = FeedData public_feed d5 /\
    fetched (-2) = FeedData public_feed d2 /\
    fetched (-9) = FeedData public_feed d9 /\
    total_entries d5 = 5%nat /\ Z.of_nat (length (entries d5)) <= 5 /\
    total_entries d2 = 5%nat /\ total_entries d9 = 0%nat /\
    (exists feed, seven_entry_feed public_feed = inl feed /\
       Z.of_nat (length (entries d2))
       = Z.max 0 (Z.of_nat (length (raw_entries feed)) + -2)).
Proof.
  intros fetched. eexists _, _, _.
  split; [vm_compute; reflexivity|].
  split; [vm_compute; reflexivity|].
  split; [vm_compute; reflexivity|].
  split; [reflexivity|].
  match goal with
  | |- Z.of_nat (length (entries ?d5)) <= 5 /\ total_entries ?d2 = _ /\ _ =>
      destruct (entries_are_limited seven_entry_feed (fun url => HttpText url)
                  public_feed 5 public_feed d5 ltac:(vm_compute; reflexivity))
        as (_ & L5 & _);
      destruct (entries_are_limited seven_entry_feed (fun url => HttpText url)
                  public_feed (-2) public_feed d2 ltac:(vm_compute; reflexivity))
        as (_ & _ & N2)
  end.
  split; [apply L5; lia|]. split; [reflexivity|]. split; [reflexivity|].
  destruct (N2 ltac:(lia)) as (text & feed & Ht & Hp & Hl).
  injection Ht as <-. exists feed. split; [exact Hp|exact Hl].
Defined.

(** X11.  [parse_single_feed] and [fetch_single_rss_feed] treat a URL
    alike: they make the same requests (none for a refused URL), and one
    answers with the feed data exactly when the other builds a data entry,
    with the same data.  Where the latter builds an error entry the former
    raises: 400 for a refused URL, 504 for a timeout, 500 otherwise. *)
Theorem single_feed_agrees
    (parse : string -> raw_feed + string) (client : string -> get_outcome)
    (url : string) (max_entries : Z) :
  let '(answer, requested) := parse_single_feed parse client url max_entries in
  let '(r, requested') :=
    fetch_single_rss_feed parse (fun u => as_reply (client u)) url max_entries in
  requested = requested' /\
  (forall d, answer = Server.Answer d <-> r = FeedData url d) /\
  (validate_url url = false ->
   answer = Server.HTTPException 400 "Invalid or unsafe URL" /\ requested = []) /\
  (forall msg, validate_url url = true -> client url = TimedOut msg ->
   answer = Server.HTTPException 504 "RSS feed request timed out") /\
  (forall msg, validate_url url = true -> client url = Failed msg ->
   answer = Server.HTTPException 500 ("RSS parsing failed: " +:+ msg)).
Proof.
  unfold parse_single_feed, fetch_single_rss_feed.
  destruct (validate_url url); simpl.
  - split; [reflexivity|].
    destruct (client url) as [text|msg|msg]; simpl.
    + destruct (parse text) as [feed|msg]; repeat split;
        try discriminate; try (intros [= <-]; reflexivity).
    + repeat split; discriminate.
    + repeat split; try discriminate. intros msg' _ [= <-]. reflexivity.
  - repeat split; discriminate.
Qed.

Lemma single_feed_agrees_witness :
  parse_single_feed one_entry_feed slow_client public_feed 10
  = (Server.HTTPException 504 "RSS feed request timed out", [public_feed]).
Proof.
  pose proof (single_feed_agrees one_entry_feed slow_client public_feed 10) as H.
  destruct (parse_single_feed _ _ _ _) as [answer requested].
  destruct (fetch_single_rss_feed _ _ _ _) as [r requested'] eqn:E.
  destruct H as (Hreq & _ & _ & Ht & _).
  rewrite Hreq, (Ht "timed out" eq_refl eq_refl).
  injection E as _ <-. reflexivity.
Defined.

End UtilsMore.

(* ===================================================================== *)
(** ** Further properties of the concurrent fetcher                        *)
(* ===================================================================== *)

Module ServicesMore.
Import Utils Services Samples.

Lemma weigh_pos (f : status -> nat) (l : list status) (i : nat) (t : status) :
  l !! i = Some t -> (f t <= weigh f l)%nat.
Proof.
  revert i. induction l as [|x l IH]; intros i H; [destruct i; discriminate|].
  destruct i as [|i]; simpl in *.
  - injection H as ->. lia.
  - specialize (IH i H). lia.
Qed.

Lemma work_zero_done (l : list status) :
  weigh work l = 0%nat <->
  is_Some (mapM (fun t => match t with Done g => Some g | _ => None end) l).
Proof.
  rewrite mapM_is_Some. split.
  - induction l as [|t l IH]; simpl; intros H; constructor.
    + destruct t; simpl in *; try lia. eexists; reflexivity.
    + apply IH. lia.
  - induction 1 as [|t l Ht _ IH]; simpl; [reflexivity|].
    destruct t; simpl in *; try (destruct Ht; discriminate). exact IH.
Qed.

Section Runs.

Variable feedparser_parse : string -> raw_feed + string.
Variable client : nat -> string -> http_reply.
Variable feed_urls : list string.
Variable cap : nat.

Notation step := (step feedparser_parse client feed_urls).
Notation reachable := (reachable feedparser_parse client feed_urls).
Notation run := (run feedparser_parse client feed_urls).
Notation inv := (inv feedparser_parse client feed_urls cap).
Notation start := (start feed_urls cap).

Lemma run_reachable (n : nat) (s : sched) : run start n s -> reachable start s.
Proof.
  induction 1 as [|n s s' _ IH Hs]; [constructor|]. econstructor; eassumption.
Qed.

(** Every step does one unit of the work: a task starts or a task
    finishes. *)
Lemma step_works (s s' : sched) :
  inv s -> step s s' ->
  (S (weigh work (tasks s')) = weigh work (tasks s))%nat.
Proof.
  intros Hi Hst. destruct Hst as [i s Hc _|i url s Hf Hu].
  - pose proof (ServicesProofs.weigh_insert work _ i Created InFlight Hc) as W1.
    pose proof (ServicesProofs.weigh_insert work _ i Created Waiting Hc) as W2.
    simpl in W1, W2. unfold acquire. destruct (_ && _); simpl; lia.
  - set (g := fetch_with_semaphore feedparser_parse client i url).
    pose proof (ServicesProofs.weigh_insert work _ i InFlight (Done g) Hf) as W1.
    simpl in W1. unfold finish, release. simpl. fold g.
    destruct (waiters s) as [|w ws] eqn:Ew; simpl; [lia|].
    assert (Hw : tasks s !! w = Some Waiting).
    { apply (inv_queue _ _ _ _ _ Hi). rewrite Ew. left. reflexivity. }
    assert (Hwi : w <> i) by congruence.
    assert (Hw' : <[i := Done g]> (tasks s) !! w = Some Waiting)
      by (rewrite list_lookup_insert_ne by congruence; exact Hw).
    pose proof (ServicesProofs.weigh_insert work _ w Waiting InFlight Hw') as W2.
    simpl in W2. lia.
Qed.

Lemma run_work (n : nat) (s : sched) :
  run start n s -> (n + weigh work (tasks s) = 2 * length feed_urls)%nat.
Proof.
  induction 1 as [|n s s' Hr IH Hs].
  - simpl. rewrite ServicesProofs.weigh_replicate. simpl. lia.
  - pose proof (step_works s s'
                  (ServicesProofs.inv_reachable _ _ _ _ _ (run_reachable _ _ Hr)) Hs).
    lia.
Qed.

End Runs.

(** X12.  With a cap of at least one the call cannot hang and cannot run
    on: every sequence of steps of the event loop has at most [2N] steps
    for [N] targets, the call has returned exactly when [2N] steps were
    taken, and before that a further step is always possible. *)
Theorem every_run_returns
    (parse : string -> raw_feed + string) (client : nat -> string -> http_reply)
    (feed_urls : list string) (cap n : nat) (s : sched) :
  (1 <= cap)%nat ->
  run parse client feed_urls (start feed_urls cap) n s ->
  (n <= 2 * length feed_urls)%nat /\
  (is_Some (returned s) <-> n = (2 * length feed_urls)%nat) /\
  (returned s = None -> exists s', step parse client feed_urls s s').
Proof.
  intros Hc Hr.
  pose proof (run_work parse client feed_urls cap n s Hr) as Hw.
  pose proof (ServicesProofs.inv_reachable _ _ _ _ _
                (run_reachable _ _ _ _ _ _ Hr)) as Hi.
  split; [lia|]. split.
  - unfold returned, results_of.
    pose proof (work_zero_done (tasks s)) as Hz.
    destruct (mapM _ (tasks s)) as [r|]; simpl.
    + split; [intros _|intros _; eexists; reflexivity].
      assert (weigh work (tasks s) = 0%nat) by (apply Hz; eexists; reflexivity).
      lia.
    + split; [intros [x Hx]; discriminate|].
      intros ->. assert (weigh work (tasks s) = 0%nat) by lia.
      apply Hz in H. destruct H as [x Hx]. discriminate.
  - intros Hn. apply (ServicesProofs.progress parse client feed_urls cap s Hc Hi).
    unfold returned in Hn. destruct (results_of s); [discriminate|reflexivity].
Qed.

(** Three targets at cap two: three starts and three finishes, the third
    task waiting until the first one is done; after the six steps the call
    has returned, after five it has not and a step is left. *)
Lemma every_run_returns_witness :
  let g (i : nat) (url : string) :=
    fetch_with_semaphore one_entry_feed flaky_client i url in
  let s3 := acquire 2 (acquire 1 (acquire 0 (start three_feeds 2))) in
  let s5 := finish 1 (g 1%nat localhost_feed) (finish 0 (g 0%nat public_feed) s3) in
  let s6 := finish 2 (g 2%nat "https://feeds.example.com/b.xml") s5 in
  run one_entry_feed flaky_client three_feeds (start three_feeds 2) 6 s6 /\
  is_Some (returned s6) /\
  returned s5 = None /\
  exists s', step one_entry_feed flaky_client three_feeds s5 s'.
Proof.
  intros g s3 s5 s6.
  assert (R1 : run one_entry_feed flaky_client three_feeds
                 (start three_feeds 2) 1 (acquire 0 (start three_feeds 2))).
  { eapply run_step; [apply run_init|].
    apply (step_start _ _ _ 0%nat); [reflexivity|]. intros j Hj. lia. }
  assert (R2 : run one_entry_feed flaky_client three_feeds
                 (start three_feeds 2) 2
                 (acquire 1 (acquire 0 (start three_feeds 2)))).
  { eapply run_step; [exact R1|].
    apply (step_start _ _ _ 1%nat); [reflexivity|].
    intros [|j] Hj; [discriminate|lia]. }
  assert (R3 : run one_entry_feed flaky_client three_feeds
                 (start three_feeds 2) 3 s3).
  { eapply run_step; [exact R2|].
    apply (step_start _ _ _ 2%nat); [reflexivity|].
    intros [|[|j]] Hj; [discriminate|discriminate|lia]. }
  assert (R5 : run one_entry_feed flaky_client three_feeds
                 (start three_feeds 2) 5 s5).
  { eapply run_step.
    - eapply run_step; [exact R3|].
      apply (step_finish _ _ _ 0%nat public_feed); reflexivity.
    - apply (step_finish _ _ _ 1%nat localhost_feed
               (finish 0 (g 0%nat public_feed) s3)); reflexivity. }
  assert (R6 : run one_entry_feed flaky_client three_feeds
                 (start three_feeds 2) 6 s6).
  { eapply run_step; [exact R5|].
    apply (step_finish _ _ _ 2%nat "https://feeds.example.com/b.xml"); reflexivity. }
  destruct (every_run_returns one_entry_feed flaky_client three_feeds 2 6 s6
              ltac:(lia) R6) as (_ & H6 & _).
  destruct (every_run_returns one_entry_feed flaky_client three_feeds 2 5 s5
              ltac:(lia) R5) as (_ & _ & H5).
  split; [exact R6|]. split; [apply H6; reflexivity|].
  split; [reflexivity|]. apply H5. reflexivity.
Defined.

(** X13.  With a cap of zero and at least one target the call never
    returns: no task ever gets a slot, so no request is made and no result
    is produced, in any reachable state. *)
Theorem no_slot_never_returns
    (parse : string -> raw_feed + string) (client : nat -> string -> http_reply)
    (feed_urls : list string) (s : sched) :
  feed_urls <> [] ->
  reachable parse client feed_urls (start feed_urls 0) s ->
  returned s = None /\ in_flight s = 0%nat /\
  forall i t, tasks s !! i = Some t -> t = Created \/ t = Waiting.
Proof.
  intros Hne Hr.
  pose proof (ServicesProofs.inv_reachable _ _ _ _ _ Hr) as Hi.
  pose proof (inv_slots _ _ _ _ _ Hi) as Hs.
  assert (H0 : in_flight s = 0%nat) by lia.
  assert (Hall : forall i t, tasks s !! i = Some t -> t = Created \/ t = Waiting).
  { clear Hi Hs H0. induction Hr as [|s s' Hr IH Hst].
    - intros i t H. apply lookup_replicate in H. destruct H as [-> _]. auto.
    - pose proof (ServicesProofs.inv_reachable _ _ _ _ _ Hr) as Hi.
      pose proof (inv_slots _ _ _ _ _ Hi) as Hs.
      destruct Hst as [j s Hc _|j url s Hf Hu].
      + intros i t. unfold acquire.
        assert (Hv : (0 <? value s)%nat = false) by (apply Nat.ltb_ge; lia).
        rewrite Hv. simpl. destruct (decide (i = j)) as [->|Hij].
        * rewrite list_lookup_insert_eq by (eapply lookup_lt_Some; eassumption).
          intros [= <-]. auto.
        * rewrite list_lookup_insert_ne by congruence. apply IH.
      + exfalso.
        pose proof (weigh_pos (fun t => if is_in_flight t then 1 else 0)%nat
                      _ _ _ Hf) as Hp.
        simpl in Hp. unfold in_flight in Hs. lia. }
  split; [|split; [exact H0|exact Hall]].
  unfold returned, results_of.
  pose proof (inv_length _ _ _ _ _ Hi) as Hl.
  destruct feed_urls as [|u us]; [contradiction|].
  destruct (tasks s) as [|t ts] eqn:Et; [discriminate|].
  destruct (Hall 0%nat t ltac:(first [rewrite Et; reflexivity | reflexivity]))
    as [->| ->]; reflexivity.
Qed.

Lemma no_slot_never_returns_witness :
  returned (acquire 0 (start three_feeds 0)) = None.
Proof.
  apply (no_slot_never_returns one_entry_feed flaky_client three_feeds
           (acquire 0 (start three_feeds 0))).
  - discriminate.
  - econstructor; [constructor|].
    apply step_start; [reflexivity|]. intros j Hj. lia.
Defined.

End ServicesMore.

(* ===================================================================== *)
(** ** Further properties of the event and configuration endpoints         *)
(* ===================================================================== *)

Module ServerMore.
Import Json Server Samples.

(** *** Listing events *)

(** X14.  [get_events] for a date that is not empty: a date that
    [strptime] refuses raises 400; otherwise the answer holds exactly the
    stored events whose date string equals the one asked for, each as often
    as it is stored, and [total_count] is their number. *)
Theorem events_of_a_date
    (strptime_date : string -> option Z)
    (events : list event) (today : Z) (d : string) (days_ahead : Z) :
  d <> EmptyString ->
  (validate_date strptime_date d = false ->
   get_events strptime_date events today (Some d) days_ahead
   = HTTPException 400 "Invalid date format. Use YYYY-MM-DD") /\
  (validate_date strptime_date d = true ->
   exists r, get_events strptime_date events today (Some d) days_ahead = Answer r /\
     Permutation (resp_events r) (List.filter (on_date d) events) /\
     total_count r = length (List.filter (on_date d) events) /\
     forall ev, In ev (resp_events r) <-> In ev events /\ date ev = d).
Proof.
  intros Hne. unfold get_events, validate_date.
  assert (Hg : given (Some d) = Some d) by (destruct d; [contradiction|reflexivity]).
  rewrite Hg. destruct (strptime_date d); split; try discriminate; intros _.
  - eexists. split; [reflexivity|]. simpl.
    pose proof (ServerProofs.sort_events_perm (List.filter (on_date d) events)) as Hp.
    split; [symmetry; exact Hp|]. split.
    + symmetry. apply Permutation_length, Hp.
    + intros ev. rewrite ServerProofs.sort_events_in, List.filter_In.
      unfold on_date. rewrite String.eqb_eq. reflexivity.
  - reflexivity.
Qed.

Lemma events_of_a_date_witness :
  (exists r, get_events ascii_strptime_date calendar 739300 (Some "2025-03-01") 7
             = Answer r /\ total_count r = 2%nat) /\
  get_events ascii_strptime_date calendar 739300 (Some "2025-02-30") 7
  = HTTPException 400 "Invalid date format. Use YYYY-MM-DD".
Proof.
  split.
  - destruct (events_of_a_date ascii_strptime_date calendar 739300 "2025-03-01" 7
                ltac:(discriminate)) as [_ H].
    destruct (H eq_refl) as (r & Hr & _ & Hc & _).
    exists r. split; [exact Hr|exact Hc].
  - destruct (events_of_a_date ascii_strptime_date calendar 739300 "2025-02-30" 7
                ltac:(discriminate)) as [H _].
    apply H. reflexivity.
Defined.

(** X15.  [get_events] without a date, or with an empty one, answers with
    exactly the stored events whose date [strptime] reads and that lies
    between today and [days_ahead] days from today, both included; events
    whose date it refuses are left out; a negative [days_ahead] gives the
    empty list. *)
Theorem events_of_a_window
    (strptime_date : string -> option Z)
    (events : list event) (today days_ahead : Z) (date_arg : option string)
    (r : events_response) :
  date_arg = None \/ date_arg = Some EmptyString ->
  get_events strptime_date events today date_arg days_ahead = Answer r ->
  (forall ev, In ev (resp_events r) <->
     In ev events /\
     exists o, strptime_date (date ev) = Some o /\ today <= o <= today + days_ahead) /\
  total_count r = length (resp_events r) /\
  (days_ahead < 0 -> resp_events r = []).
Proof.
  intros Hd. unfold get_events.
  assert (Hg : given date_arg = None) by (destruct Hd as [->| ->]; reflexivity).
  rewrite Hg.
  destruct (_ && _); [|discriminate]. intros [= <-]. simpl.
  match goal with |- context [sort_events ?x] => set (L := sort_events x) end.
  assert (Hin : forall ev,
             In ev L
             <-> In ev events /\
                 exists o, strptime_date (date ev) = Some o /\
                           today <= o <= today + days_ahead).
  { intros ev. unfold L. rewrite ServerProofs.sort_events_in, List.filter_In.
    split; intros [H1 H2]; (split; [exact H1|]).
    - destruct (strptime_date (date ev)) as [o|]; [|discriminate].
      exists o. split; [reflexivity|]. lia.
    - destruct H2 as (o & -> & Ho). lia. }
  clearbody L.
  split; [exact Hin|]. split; [reflexivity|].
  intros Hneg.
  destruct L as [|ev l]; [reflexivity|]. exfalso.
  destruct (proj1 (Hin ev)) as (_ & o & _ & Ho); [left; reflexivity|lia].
Qed.

(** On 2025-02-19 the ten days ahead hold both events of the sample
    calendar, the two days ahead none of them. *)
Lemma events_of_a_window_witness :
  (In standup [breakfast; standup] <->
   In standup calendar /\
   exists o, ascii_strptime_date (date standup) = Some o /\
             739301 <= o <= 739301 + 10) /\
  total_count (mkEventsResponse [] 0) = 0%nat /\
  get_events ascii_strptime_date calendar 739301 (Some EmptyString) 2
  = Answer (mkEventsResponse [] 0).
Proof.
  destruct (events_of_a_window ascii_strptime_date calendar 739301 10 None
              (mkEventsResponse [breakfast; standup] 2)
              (or_introl eq_refl) eq_refl) as (H & _ & _).
  destruct (events_of_a_window ascii_strptime_date calendar 739301 2
              (Some EmptyString) (mkEventsResponse [] 0)
              (or_intror eq_refl) eq_refl) as (_ & H' & _).
  split; [apply (H standup)|]. split; [exact H'|reflexivity].
Defined.

Lemma filter_sublist (p : event -> bool) (l : list event) :
  sublist (List.filter p l) l.
Proof.
  induction l as [|x l IH]; simpl; [constructor|].
  destruct (p x); [apply sublist_skip|apply sublist_cons]; exact IH.
Qed.

(** X16.  The sort of [get_events] is stable: in every answer, the events
    that share a date and a time come in the order in which they are
    stored. *)
Theorem equal_keys_keep_stored_order
    (strptime_date : string -> option Z)
    (events : list event) (today : Z) (date_arg : option string)
    (days_ahead : Z) (r : events_response) (k : event) :
  get_events strptime_date events today date_arg days_ahead = Answer r ->
  sublist (List.filter (same_key k) (resp_events r)) events.
Proof.
  unfold get_events. intros H.
  destruct (given date_arg) as [d|].
  - destruct (strptime_date d); [|discriminate]. injection H as <-. simpl.
    rewrite ServerProofs.sort_events_stable.
    etransitivity; apply filter_sublist.
  - destruct (_ && _); [|discriminate]. injection H as <-. simpl.
    rewrite ServerProofs.sort_events_stable.
    etransitivity; apply filter_sublist.
Qed.

(** The stand-up and the retrospective share their date and time: the
    answer lists them after the breakfast, the stand-up first, as they are
    stored. *)
Lemma equal_keys_keep_stored_order_witness :
  get_events ascii_strptime_date busy_calendar 739300 (Some "2025-03-01") 7
  = Answer (mkEventsResponse [breakfast; standup; retro] 3) /\
  List.filter (same_key standup) [breakfast; standup; retro] = [standup; retro] /\
  sublist (List.filter (same_key standup) [breakfast; standup; retro]) busy_calendar.
Proof.
  split; [vm_compute; reflexivity|]. split; [reflexivity|].
  apply (equal_keys_keep_stored_order ascii_strptime_date busy_calendar 739300
           (Some "2025-03-01") 7
           (mkEventsResponse [breakfast; standup; retro] 3) standup).
  vm_compute. reflexivity.
Defined.

(** *** Adding and deleting events *)

Lemma find_event_middle (events1 events2 : list event) (ev : event)
    (event_id : string) (i : nat) :
  id ev = event_id ->
  (forall e, In e events1 -> id e <> event_id) ->
  find_event (events1 ++ ev :: events2) event_id i = Some (i + length events1)%nat.
Proof.
  intros He. revert i. induction events1 as [|x l IH]; intros i Hn; simpl.
  - rewrite He, String.eqb_refl. f_equal. lia.
  - destruct (String.eqb_spec (id x) event_id) as [E|_].
    + exfalso. apply (Hn x); [left; reflexivity|exact E].
    + rewrite IH by (intros e Hin; apply Hn; right; exact Hin). f_equal. lia.
Qed.

(** The first stored event with the given id is the one that goes. *)
Lemma delete_event_removes_first
    (events1 events2 : list event) (ev : event) (event_id : string) :
  id ev = event_id ->
  (forall e, In e events1 -> id e <> event_id) ->
  delete_event (events1 ++ ev :: events2) event_id
  = (Answer ev, events1 ++ events2).
Proof.
  intros He Hn. unfold delete_event.
  rewrite (find_event_middle _ _ _ _ 0 He Hn). simpl.
  rewrite list_lookup_middle by reflexivity.
  rewrite delete_middle. reflexivity.
Qed.

Lemma first_with_id (events : list event) (event_id : string) :
  (exists e, In e events /\ id e = event_id) ->
  exists events1 ev events2,
    events = events1 ++ ev :: events2 /\ id ev = event_id /\
    forall e, In e events1 -> id e <> event_id.
Proof.
  induction events as [|x l IH]; intros (e & Hin & He); [destruct Hin|].
  destruct (String.eqb_spec (id x) event_id) as [E|E].
  - exists [], x, l. repeat split; [exact E|]. intros ? [].
  - destruct IH as (l1 & ev & l2 & -> & Hev & Hn).
    { destruct Hin as [<-|Hin]; [contradiction|]. exists e. split; assumption. }
    exists (x :: l1), ev, l2. repeat split; [exact Hev|].
    intros e' [<-|H']; [exact E|apply Hn, H'].
Qed.

(** X17.  When some stored event has the given id, [delete_event] removes
    the first such event and nothing else: it answers with that event, the
    store is one event shorter, and the events before and after it stay,
    in their order. *)
Theorem delete_event_stored_id (events : list event) (event_id : string) :
  (exists e, In e events /\ id e = event_id) ->
  exists events1 ev events2,
    events = events1 ++ ev :: events2 /\ id ev = event_id /\
    (forall e, In e events1 -> id e <> event_id) /\
    delete_event events event_id = (Answer ev, events1 ++ events2) /\
    S (length (snd (delete_event events event_id))) = length events.
Proof.
  intros H. destruct (first_with_id _ _ H) as (l1 & ev & l2 & -> & Hev & Hn).
  exists l1, ev, l2. repeat split; try assumption.
  - apply delete_event_removes_first; assumption.
  - rewrite (delete_event_removes_first l1 l2 ev event_id Hev Hn). simpl.
    rewrite !length_app. simpl. lia.
Qed.

Lemma delete_event_stored_id_witness :
  exists events1 ev events2,
    calendar = events1 ++ ev :: events2 /\ id ev = "event_2_1740000100" /\
    delete_event calendar "event_2_1740000100" = (Answer ev, events1 ++ events2).
Proof.
  destruct (delete_event_stored_id calendar "event_2_1740000100")
    as (l1 & ev & l2 & H1 & H2 & _ & H3 & _).
  - exists breakfast. split; [right; left; reflexivity|reflexivity].
  - exists l1, ev, l2. repeat split; assumption.
Defined.

(** X18.  Adding an event and then deleting the id that was handed out
    gives the store back as it was, provided no stored event already has
    that id. *)
Theorem add_then_delete_restores
    (events : list event) (now : clock) (e : EventCreate) :
  (forall ev, In ev events -> id ev <> id (new_event events now e)) ->
  let '(ev, events') := add_event events now e in
  delete_event events' (id ev) = (Answer ev, events).
Proof.
  intros Hn. unfold add_event.
  rewrite (delete_event_removes_first events [] _ _ eq_refl Hn).
  rewrite app_nil_r. reflexivity.
Qed.

Lemma add_then_delete_restores_witness :
  let '(ev, events') := add_event calendar noon lunch in
  delete_event events' (id ev) = (Answer ev, calendar).
Proof.
  apply (add_then_delete_restores calendar noon lunch).
  intros ev [<-|[<-|[]]]; vm_compute; discriminate.
Defined.

(** X19.  Ids are not unique.  The id is made of the number of stored
    events and the second of the clock, so after one event is added, the
    oldest event deleted and another event added within the same second,
    the two new events are both stored under the same id. *)
Theorem ids_can_repeat
    (first : event) (others : list event) (now : clock) (e1 e2 : EventCreate) :
  let '(a, store1) := add_event (first :: others) now e1 in
  let '(_, store2) := delete_event store1 (id first) in
  let '(b, store3) := add_event store2 now e2 in
  store3 = others ++ [a; b] /\ id a = id b.
Proof.
  unfold add_event.
  change ((first :: others) ++ [new_event (first :: others) now e1])
    with ([] ++ first :: (others ++ [new_event (first :: others) now e1])).
  rewrite (delete_event_removes_first [] _ first (id first) eq_refl)
    by (intros ? []).
  simpl. rewrite <- app_assoc. split; [reflexivity|].
  unfold new_event. simpl. rewrite !length_app. simpl.
  repeat f_equal. lia.
Qed.

(** X20.  Adding an event does not change what [get_events] lists for any
    other date. *)
Theorem other_dates_unaffected
    (strptime_date : string -> option Z)
    (events : list event) (now : clock) (e : EventCreate)
    (today : Z) (d : string) (days_ahead : Z) :
  d <> EmptyString -> ec_date e <> d ->
  get_events strptime_date (snd (add_event events now e)) today (Some d) days_ahead
  = get_events strptime_date events today (Some d) days_ahead.
Proof.
  intros Hne Hd. unfold get_events, add_event.
  assert (Hg : given (Some d) = Some d) by (destruct d; [contradiction|reflexivity]).
  rewrite Hg. destruct (strptime_date d); [|reflexivity].
  cbn [snd]. rewrite List.filter_app. cbn [List.filter new_event date].
  destruct (String.eqb_spec (ec_date e) d) as [E|_]; [contradiction|].
  rewrite app_nil_r. reflexivity.
Qed.

Lemma other_dates_unaffected_witness :
  get_events ascii_strptime_date (snd (add_event calendar noon lunch))
    739300 (Some "2025-03-02") 7
  = get_events ascii_strptime_date calendar 739300 (Some "2025-03-02") 7.
Proof.
  apply (other_dates_unaffected ascii_strptime_date calendar noon lunch
           739300 "2025-03-02" 7);
    discriminate.
Defined.

(** *** Configuration *)

(** What [update_config] does depends on the request alone: when it
    returns, it returns on every configuration, with the same new value. *)
Lemma update_config_value (config config' : gmap string json) (u : ConfigUpdate)
    (r : config_response) :
  update_config config u = (Answer r, config') ->
  forall c : gmap string json,
    update_config c u
    = (Answer (mkConfigResponse (setting u) (c !! setting u) (new_value r)),
       <[setting u := new_value r]> c).
Proof.
  unfold update_config.
  destruct (if existsb _ _ then _ else _) as [v| |]; try discriminate.
  intros [= <- _] c. reflexivity.
Qed.

(** [update_config] returns, or raises an [HTTPException] and leaves the
    configuration alone. *)
Lemma update_config_raises (config : gmap string json) (u : ConfigUpdate) :
  (exists r config', update_config config u = (Answer r, config'))
  \/ (exists st dt, update_config config u = (HTTPException st dt, config)).
Proof.
  unfold update_config.
  destruct (existsb _ _).
  - destruct (int_value (value u)); [left|right]; eexists _, _; reflexivity.
  - destruct (String.eqb _ _).
    + destruct (float_of_str (value u)); [left|right]; eexists _, _; reflexivity.
    + left. eexists _, _. reflexivity.
Qed.

(** A response that was sent could be written. *)
Lemma send_response_answer (out : http config_response * gmap string json)
    (r : config_response) (config' : gmap string json) :
  send_response out = (Answer r, config') ->
  out = (Answer r, config') /\
  json_compliant (new_value r) = true /\
  (forall v, old_value r = Some v -> json_compliant v = true).
Proof.
  destruct out as [[r0| |] c]; simpl; try discriminate.
  destruct (json_compliant (new_value r0)) eqn:En; simpl; [|discriminate].
  destruct (old_value r0) as [w|] eqn:Eo.
  - destruct (json_compliant w) eqn:Ew; [|discriminate].
    intros [= <- <-]. split; [reflexivity|]. split; [exact En|].
    intros v. rewrite Eo. intros [= <-]. exact Ew.
  - intros [= <- <-]. split; [reflexivity|]. split; [exact En|].
    intros v. rewrite Eo. discriminate.
Qed.

Lemma validate_setting_allowed (s : string) :
  validate_setting s = true -> In s allowed_settings.
Proof.
  unfold validate_setting. intros E.
  apply existsb_exists in E. destruct E as (x & Hx & E).
  apply String.eqb_eq in E. subst x. exact Hx.
Qed.

Lemma post_config_answer (config config' : gmap string json) (u : ConfigUpdate)
    (r : config_response) :
  post_config config u = (Answer r, config') ->
  In (setting u) allowed_settings /\
  update_config config u = (Answer r, config') /\
  r = mkConfigResponse (setting u) (config !! setting u) (new_value r) /\
  config' = <[setting u := new_value r]> config /\
  json_compliant (new_value r) = true.
Proof.
  unfold post_config.
  destruct (validate_setting (setting u)) eqn:Ea; [|discriminate].
  intros H. apply send_response_answer in H. destruct H as (H & Hn & _).
  split; [apply validate_setting_allowed, Ea|]. split; [exact H|].
  pose proof (update_config_value _ _ _ _ H config) as H'.
  rewrite H in H'. injection H' as Hr Hc.
  split; [exact Hr|]. split; [exact Hc|exact Hn].
Qed.

(** X21.  An update that is answered can be read back: the configuration
    then holds the value of the answer under the setting, the answer
    reports the value the setting had before, and sending the same update
    again is answered too and changes nothing further. *)
Theorem update_can_be_read_back
    (config config' : gmap string json) (u : ConfigUpdate) (r : config_response) :
  post_config config u = (Answer r, config') ->
  config' !! setting u = Some (new_value r) /\
  old_value r = config !! setting u /\
  snd (post_config config' u) = config' /\
  exists r', fst (post_config config' u) = Answer r' /\
             new_value r' = new_value r /\ old_value r' = Some (new_value r).
Proof.
  intros H.
  destruct (post_config_answer _ _ _ _ H) as (Hin & Hu & Hr & -> & Hn).
  split; [apply lookup_insert_eq|]. split; [rewrite Hr; reflexivity|].
  revert H. unfold post_config.
  destruct (validate_setting (setting u)); [|discriminate]. intros _.
  rewrite (update_config_value _ _ _ _ Hu). unfold send_response.
  cbn [new_value old_value]. rewrite lookup_insert_eq, Hn. cbn [andb fst snd].
  split; [apply insert_insert_eq|].
  eexists. split; [reflexivity|]. split; reflexivity.
Qed.

Lemma update_can_be_read_back_witness :
  <[ "api_timeout" := JFloat false 25 (-1) ]> default_config
    !! "api_timeout" = Some (JFloat false 25 (-1)) /\
  snd (post_config (<[ "api_timeout" := JFloat false 25 (-1) ]> default_config)
         (mkConfigUpdate "api_timeout" " 2.5 "))
  = <[ "api_timeout" := JFloat false 25 (-1) ]> default_config.
Proof.
  destruct (update_can_be_read_back default_config
              (<[ "api_timeout" := JFloat false 25 (-1) ]> default_config)
              (mkConfigUpdate "api_timeout" " 2.5 ")
              (mkConfigResponse "api_timeout" (Some (JFloat false 300 (-1)))
                 (JFloat false 25 (-1))))
    as (H1 & _ & H2 & _).
  - vm_compute. reflexivity.
  - split; [exact H1|exact H2].
Defined.

(** X22.  A request that is refused with an [HTTPException] (422 for a
    setting outside the allow-list, 400 for a numeric setting whose value
    does not convert) leaves the configuration as it was.  A request that
    ends in another exception ends in the [ValueError] of the response,
    and its value is already stored: the value, or the one it replaced,
    cannot be written as JSON. *)
Theorem refused_update_changes_nothing
    (config : gmap string json) (u : ConfigUpdate) :
  Py.is_ascii (value u) = true ->
  (forall st dt, fst (post_config config u) = HTTPException st dt ->
     snd (post_config config u) = config) /\
  (forall ex, fst (post_config config u) = Unhandled ex ->
     ex = "ValueError" /\
     exists v, snd (post_config config u) = <[setting u := v]> config /\
       (json_compliant v = false
        \/ exists w, config !! setting u = Some w /\ json_compliant w = false)).
Proof.
  intros _. unfold post_config.
  destruct (validate_setting (setting u)).
  2: { split; [reflexivity|]. intros ex. discriminate. }
  destruct (update_config_raises config u) as [(r & c & E)|(st & dt & E)].
  - pose proof (update_config_value _ _ _ _ E config) as E'. rewrite E'.
    unfold send_response. cbn [new_value old_value].
    destruct (json_compliant (new_value r)) eqn:En; cbn [andb].
    + destruct (config !! setting u) as [w|] eqn:Ew.
      * destruct (json_compliant w) eqn:Ec; cbn [fst snd].
        -- split; [discriminate|discriminate].
        -- split; [discriminate|]. intros ex [= <-]. split; [reflexivity|].
           exists (new_value r). split; [reflexivity|].
           right. exists w. split; [reflexivity|exact Ec].
      * cbn [fst snd]. split; discriminate.
    + cbn [fst snd]. split; [discriminate|]. intros ex [= <-].
      split; [reflexivity|]. exists (new_value r). split; [reflexivity|].
      left. exact En.
  - rewrite E. cbn [send_response fst snd]. split; [reflexivity|discriminate].
Qed.

(** A timeout that is no number is refused and nothing is stored; an
    infinite one is stored, and then the response cannot be written. *)
Lemma refused_update_changes_nothing_witness :
  snd (post_config default_config (mkConfigUpdate "api_timeout" "soon"))
  = default_config /\
  post_config default_config (mkConfigUpdate "api_timeout" "inf")
  = (Unhandled "ValueError", <[ "api_timeout" := JInf false ]> default_config) /\
  exists v, snd (post_config default_config (mkConfigUpdate "api_timeout" "1e400"))
            = <[ "api_timeout" := v ]> default_config.
Proof.
  destruct (refused_update_changes_nothing default_config
              (mkConfigUpdate "api_timeout" "soon") eq_refl) as [H _].
  destruct (refused_update_changes_nothing default_config
              (mkConfigUpdate "api_timeout" "1e400") eq_refl) as [_ H'].
  split; [apply (H 400 "Invalid value for api_timeout: must be numeric"); reflexivity|].
  split; [vm_compute; reflexivity|].
  destruct (H' "ValueError") as (_ & v & Hv & _); [vm_compute; reflexivity|].
  exists v. exact Hv.
Defined.

(** What [int()] and [float()] read: the separators 0x1c-0x1f are not
    skipped, a literal that is too large for a [float] is infinite, and a
    literal of more than 4300 digits is no [int]. *)
Example conversions_of_update_config :
  Py.int_of_str " 12 " = Some 12 /\
  Py.int_of_str (String "031" "12") = None /\
  Py.int_of_str "1_000" = Some 1000 /\
  float_of_str "1e400" = Some (JInf false) /\
  float_of_str "-2.5e-3" = Some (JFloat true 25 (-4)) /\
  float_of_str "Infinity" = Some (JInf false) /\
  float_of_str (String "031" "1.5") = None.
Proof. repeat split; vm_compute; reflexivity. Qed.

Lemma make_float_is_float (neg : bool) (m e : Z) : is_float (make_float neg m e) = true.
Proof. unfold make_float. destruct (float_overflows m e); reflexivity. Qed.

Lemma float_of_str_is_float (s : string) (v : json) :
  float_of_str s = Some v -> is_float v = true.
Proof.
  unfold float_of_str, float_number, option_map.
  destruct (match Py.c_strip s with
            | String "-" r => (true, r)
            | String "+" r => (false, r)
            | r => (false, r)
            end) as [neg body].
  repeat match goal with
         | |- context [if ?b then _ else _] => destruct b
         | |- context [match ?o with _ => _ end] => destruct o
         end;
    intros H;
    first [discriminate
          | injection H as <-; first [reflexivity | apply make_float_is_float]].
Qed.

Lemma update_config_value_typed (config config' : gmap string json)
    (u : ConfigUpdate) (r : config_response) :
  In (setting u) allowed_settings ->
  update_config config u = (Answer r, config') ->
  setting_type_ok (setting u) (new_value r) = true.
Proof.
  intros Hin. destruct u as [s v]. simpl in *.
  unfold update_config, int_value. simpl.
  destruct Hin as [<-|[<-|[<-|[<-|[<-|[]]]]]];
    cbn [existsb String.eqb Ascii.eqb Bool.eqb orb].
  - intros [= <- _]. reflexivity.
  - intros [= <- _]. reflexivity.
  - destruct (Py.int_of_str v); simpl; [|discriminate].
    intros [= <- _]. reflexivity.
  - destruct (float_of_str v) as [w|] eqn:Ef; [|discriminate].
    intros [= <- _]. simpl. apply float_of_str_is_float in Ef. exact Ef.
  - destruct (Py.int_of_str v); simpl; [|discriminate].
    intros [= <- _]. reflexivity.
Qed.

(** X23.  No request removes a key of the configuration, and the
    settings keep their types ([max_articles] and
    [max_concurrent_requests] an [int], [api_timeout] a [float], the two
    defaults a [str]), whether the request is answered, refused, or ends
    in the [ValueError] of the response. *)
Theorem updates_keep_keys_and_types (config : gmap string json) (u : ConfigUpdate) :
  Py.is_ascii (value u) = true ->
  well_typed config ->
  well_typed (snd (post_config config u)) /\
  forall k, is_Some (config !! k) -> is_Some (snd (post_config config u) !! k).
Proof.
  intros _ Hw. unfold post_config.
  destruct (validate_setting (setting u)) eqn:Ea; [|split; [exact Hw|auto]].
  rewrite ServerProofs.send_response_config.
  destruct (update_config_raises config u) as [(r & c & E)|(st & dt & E)].
  - pose proof (update_config_value_typed _ _ _ _
                  (validate_setting_allowed _ Ea) E) as Ht.
    rewrite (update_config_value _ _ _ _ E config). cbn [snd]. split.
    + apply map_Forall_insert_2; assumption.
    + intros k Hs. destruct (decide (setting u = k)) as [<-|Hne].
      * rewrite lookup_insert_eq. eexists; reflexivity.
      * rewrite lookup_insert_ne by exact Hne. exact Hs.
  - rewrite E. cbn [snd]. split; [exact Hw|auto].
Qed.

Lemma updates_keep_keys_and_types_witness :
  well_typed (snd (post_config default_config (mkConfigUpdate "api_timeout" "1e3"))) /\
  well_typed (snd (post_config default_config (mkConfigUpdate "api_timeout" "nan"))) /\
  is_Some (snd (post_config default_config
                  (mkConfigUpdate "max_concurrent_requests" "-1"))
           !! "max_concurrent_requests").
Proof.
  assert (Hd : well_typed default_config).
  { unfold default_config. simpl.
    repeat (apply map_Forall_insert_2; [reflexivity|]).
    apply map_Forall_empty. }
  split; [|split].
  - apply (updates_keep_keys_and_types default_config
             (mkConfigUpdate "api_timeout" "1e3") eq_refl Hd).
  - apply (updates_keep_keys_and_types default_config
             (mkConfigUpdate "api_timeout" "nan") eq_refl Hd).
  - apply (updates_keep_keys_and_types default_config
             (mkConfigUpdate "max_concurrent_requests" "-1") eq_refl Hd).
    vm_compute. eexists. reflexivity.
Defined.

(** *** The earlier server *)

(** X24.  On a setting of its own allow-list the earlier server changes the
    configuration exactly as the later one does and answers exactly when
    the later one does, with the same answer; a setting outside its
    allow-list, which includes [max_concurrent_requests], it refuses with
    400 and leaves the configuration as it was. *)
Theorem earlier_update_config_agrees
    (config : gmap string json) (setting value : string) :
  (In setting McpServer.allowed_settings ->
   snd (McpServer.update_config config setting value)
   = snd (post_config config (mkConfigUpdate setting value)) /\
   forall r, fst (McpServer.update_config config setting value) = Answer r <->
             fst (post_config config (mkConfigUpdate setting value)) = Answer r) /\
  (~ In setting McpServer.allowed_settings ->
   McpServer.update_config config setting value
   = (HTTPException 400 ("Invalid setting: " +:+ setting), config)).
Proof.
  split.
  - intros Hin. unfold McpServer.allowed_settings in Hin. simpl in Hin.
    destruct Hin as [<-|[<-|[<-|[<-|[]]]]];
      unfold McpServer.update_config, post_config, update_config, int_value;
      cbn [existsb McpServer.allowed_settings allowed_settings validate_setting
           Server.setting Server.value String.eqb Ascii.eqb Bool.eqb orb negb];
      try (split; [reflexivity|intros r; reflexivity]).
    + destruct (Py.int_of_str value); simpl;
        (split; [reflexivity|intros r; split; intros H; try discriminate; exact H]).
    + destruct (float_of_str value); simpl;
        (split; [reflexivity|intros r; split; intros H; try discriminate; exact H]).
  - intros Hn. unfold McpServer.update_config.
    destruct (existsb _ _) eqn:E; [|reflexivity].
    exfalso. apply Hn. apply existsb_exists in E. destruct E as (x & Hx & E).
    apply String.eqb_eq in E. subst x. exact Hx.
Qed.

Lemma earlier_update_config_agrees_witness :
  snd (McpServer.update_config default_config "max_articles" "50")
    = snd (post_config default_config (mkConfigUpdate "max_articles" "50")) /\
  McpServer.update_config default_config "max_concurrent_requests" "3"
    = (HTTPException 400 "Invalid setting: max_concurrent_requests", default_config).
Proof.
  destruct (earlier_update_config_agrees default_config "max_articles" "50")
    as [H1 _].
  destruct (earlier_update_config_agrees default_config
              "max_concurrent_requests" "3") as [_ H2].
  split.
  - apply H1. simpl. tauto.
  - apply H2. simpl. intros H. repeat (destruct H as [H|H]; [discriminate|]). exact H.
Defined.

(** X25.  Whatever the earlier server accepts as a new event the later one
    accepts too, with the same event and the same store; the later one
    accepts more: what it accepts the earlier one accepts as well, except
    for a time that is not empty but blank (one of which [strip] leaves
    nothing), which passes its validator and is stored, where the earlier
    server answers 400. *)
Theorem earlier_add_event_agrees
    (strptime_date : string -> option Z) (strptime_time : string -> bool)
    (str_strip : string -> string)
    (events : list event) (now : clock) (e : EventCreate) :
  (forall ev events',
     McpServer.add_event strptime_date strptime_time events now e
     = (Answer ev, events') ->
     post_events strptime_date strptime_time str_strip events now e
     = (Answer ev, events')) /\
  (forall ev events',
     post_events strptime_date strptime_time str_strip events now e
     = (Answer ev, events') ->
     McpServer.add_event strptime_date strptime_time events now e
     = (Answer ev, events')
     \/ (ec_time e <> EmptyString /\ str_strip (ec_time e) = EmptyString /\
         McpServer.add_event strptime_date strptime_time events now e
         = (HTTPException 400 "Invalid time format. Use HH:MM", events))).
Proof.
  unfold McpServer.add_event, post_events, add_event, valid_event,
    validate_date, validate_time.
  destruct (strptime_date (ec_date e)); simpl; [|split; intros; discriminate].
  destruct (String.eqb_spec (ec_time e) EmptyString) as [Et|Et]; simpl.
  - split; intros ev events' H; [exact H|left; exact H].
  - destruct (String.eqb_spec (str_strip (ec_time e)) EmptyString) as [Es|Es]; simpl.
    + split; intros ev events' H.
      * destruct (strptime_time (ec_time e)); [exact H|discriminate].
      * destruct (strptime_time (ec_time e)) eqn:Ep; simpl; [left; exact H|].
        right. repeat split; assumption.
    + destruct (strptime_time (ec_time e)); simpl;
        split; intros ev events' H; try discriminate; try (left; exact H); exact H.
Qed.

Lemma earlier_add_event_agrees_witness :
  McpServer.add_event ascii_strptime_date ascii_strptime_time
    calendar noon blank_time_event
    = (HTTPException 400 "Invalid time format. Use HH:MM", calendar) /\
  fst (post_events ascii_strptime_date ascii_strptime_time Py.strip
         calendar noon blank_time_event)
    = Answer (new_event calendar noon blank_time_event).
Proof.
  destruct (earlier_add_event_agrees ascii_strptime_date ascii_strptime_time
              Py.strip calendar noon blank_time_event) as [_ H].
  destruct (H (new_event calendar noon blank_time_event)
              (calendar ++ [new_event calendar noon blank_time_event]) eq_refl)
    as [H'|(_ & _ & H')].
  - vm_compute in H'. discriminate.
  - split; [exact H'|reflexivity].
Defined.

End ServerMore.
